(** * Correlation of panel, module and fault detections (detection.py)

    A shallow embedding of the per-frame body of [run] in [detection.py]:
    the three detector passes, the sorting of the box lists, the nested
    panel / module / fault loops that draw on the preview and anomaly
    images, and what is written to disk.

    Conventions of the embedding.
    - Box coordinates are integers: every pass rounds the rescaled
      coordinates ([scale_coords(...).round()]) before it stores them, so
      the [float] values kept in the box lists are integer valued.
    - A midpoint [(a + b) / 2] and a confidence score are rationals: the
      binary floating point values the program handles are dyadic
      rationals, and with integer coordinates and scores of at most 24
      significant bits the sums, halvings and the product by 10000 are
      exact in binary64.
    - An image buffer is named by a reference into a store; the store keeps,
      per buffer, the drawing calls issued on it, oldest first.  Two Python
      names bound to one array are one reference.
    - [cv2.waitKey] reads the next entry of a list of key codes; when the
      list is exhausted no key was pressed and the call returns -1.
    - The detectors, non-max suppression, the rescaling of coordinates, the
      colour table and the formatting of the annotator's labels are
      parameters: they live outside this file of the repository.
    - Logging, timing and the window display are not modelled; an image
      source ([dataset.mode == 'image'], one image per batch) is assumed. *)

From Stdlib Require Import QArith Qround.
From stdpp Require Import base tactics option list sorting strings pretty gmap.

Open Scope Z_scope.

#[local] Set Warnings "-clear-no-such-hyp".

(** * Part I: the program *)

(** ** Boxes and the containment test *)

(** One entry of [pred_*_solar_modules]: [[x1, y1, x2, y2]]. *)
Record box := Box { bx1 : Z; by1 : Z; bx2 : Z; by2 : Z }.

#[global] Instance box_eq_dec : EqDecision box.
Proof. solve_decision. Defined.

(** Strict comparison of two floats, as a boolean. *)
Definition Qltb (a b : Q) : bool := negb (Qle_bool b a).

(** [(b[0] + b[2]) / 2, (b[1] + b[3]) / 2] (lines 325 and 335). *)
Definition mid_point_x (b : box) : Q := (inject_Z (bx1 b + bx2 b) / 2)%Q.
Definition mid_point_y (b : box) : Q := (inject_Z (by1 b + by2 b) / 2)%Q.

(** The condition of lines 326 and 336:
    [mx > p[0] and mx < p[2] and my > p[1] and my < p[3]]. *)
Definition inside (mx my : Q) (p : box) : bool :=
  Qltb (inject_Z (bx1 p)) mx && Qltb mx (inject_Z (bx2 p)) &&
  Qltb (inject_Z (by1 p)) my && Qltb my (inject_Z (by2 p)).

(** The test applied to the midpoint of a detection [d] and a panel [p]. *)
Definition contained (d p : box) : bool :=
  inside (mid_point_x d) (mid_point_y d) p.

(** ** Sorting of the box lists *)

(** Python compares two lists of floats lexicographically. *)
Definition box_le (a b : box) : Prop :=
  bx1 a < bx1 b \/ (bx1 a = bx1 b /\
   (by1 a < by1 b \/ (by1 a = by1 b /\
     (bx2 a < bx2 b \/ (bx2 a = bx2 b /\ by2 a <= by2 b))))).

#[global] Instance box_le_dec : RelDecision box_le.
Proof. intros a b. unfold box_le. apply _. Defined.

(** [list.sort()]: a stable sort.  On boxes the order is total and
    antisymmetric, so the sorted list is unique and any stable sort
    computes it. *)
Definition py_sort (l : list box) : list box := merge_sort box_le l.

(** ** Images, keys and files *)

Definition point : Type := Z * Z.
Definition colour : Type := Z * Z * Z.

(** A drawing call on an image buffer. *)
Inductive drawop :=
  | Rectangle (p1 p2 : point) (c : colour) (thickness : Z)
      (* cv2.rectangle(img, p1, p2, c, thickness) *)
  | PutText (text : string) (org : point) (fontScale : Z) (c : colour)
      (thickness : Z)
      (* cv2.putText(img, text, org, FONT_HERSHEY_SIMPLEX, fontScale, c,
         thickness, LINE_AA) *)
  | BoxLabel (b : box) (label : string) (c : colour).
      (* annotator.box_label(xyxy, label, color=c) *)

#[global] Instance drawop_eq_dec : EqDecision drawop.
Proof. solve_decision. Defined.

(** What has been drawn on a buffer since it was read or copied. *)
Abbreviation canvas := (list drawop).

(** A reference to an image buffer. *)
Abbreviation ref := nat.

(** One line of a label file: [(cls, *xywh, conf)] or [(cls, *xywh)]. *)
Record label_line := LabelLine
  { ll_cls : Z; ll_xywh : Q * Q * Q * Q; ll_conf : option Q }.

Inductive file :=
  | ImageFile (c : canvas)
  | TextFile (lines : list label_line).

Inductive detector := PanelModel | FaultModel | SingleModel.

#[global] Instance detector_eq_dec : EqDecision detector.
Proof. solve_decision. Defined.

(** The state the body of [run] acts on.  [T] is the type of the input
    tensor recorded with each detector call. *)
Record world {T : Type} := World
  { heap : list canvas;            (* image buffers, by reference *)
    keys : list Z;                 (* key codes not yet read *)
    disk : gmap string file;       (* files under save_dir, by name *)
    calls : list (detector * T)    (* detector invocations, oldest first *) }.
Arguments world : clear implicits.
Arguments World {T} _ _ _ _.

Definition set_heap {T} (h : list canvas) (w : world T) : world T :=
  World h (keys w) (disk w) (calls w).
Definition set_keys {T} (k : list Z) (w : world T) : world T :=
  World (heap w) k (disk w) (calls w).
Definition set_disk {T} (d : gmap string file) (w : world T) : world T :=
  World (heap w) (keys w) d (calls w).
Definition set_calls {T} (c : list (detector * T)) (w : world T) : world T :=
  World (heap w) (keys w) (disk w) c.

(** State-passing computations. *)
Definition M (T A : Type) : Type := world T -> A * world T.

Definition ret {T A} (a : A) : M T A := fun w => (a, w).
Definition bind {T A B} (m : M T A) (f : A -> M T B) : M T B :=
  fun w => let (a, w') := m w in f a w'.

#[global] Instance M_ret {T} : MRet (M T) := @ret T.
#[global] Instance M_bind {T} : MBind (M T) := fun A B f m => bind m f.

(** [cv2.imread(path)], [x.copy()]: a fresh buffer holding the source
    raster, nothing drawn on it yet. *)
Definition new_image {T} : M T ref :=
  fun w => (length (heap w), set_heap (heap w ++ [[]]) w).

(** Any drawing call mutates the buffer it is given. *)
Definition draw {T} (r : ref) (op : drawop) : M T unit :=
  fun w => (tt, set_heap (alter (fun c => c ++ [op]) r (heap w)) w).

(** [cv2.waitKey(delay)]. *)
Definition waitKey {T} (delay : Z) : M T Z :=
  fun w => (hd (-1) (keys w), set_keys (tl (keys w)) w).

(** The pixels of buffer [r], as the calls drawn on the source raster. *)
Definition pixels {T} (r : ref) (w : world T) : canvas :=
  default [] (heap w !! r).

(** Changing and listing the files under [save_dir]. *)
Definition update_disk {T} (f : gmap string file -> gmap string file)
    : M T unit :=
  fun w => (tt, set_disk (f (disk w)) w).
Definition read_disk {T} : M T (gmap string file) :=
  fun w => (disk w, w).

(** ** The confidence label of a fault (lines 348 and 349) *)

(** [int(x)]: truncation toward zero. *)
Definition py_int (x : Q) : Z := Z.quot (Qnum x) (Z.pos (Qden x)).

(** One decimal digit. *)
Definition digit (d : Z) : string := pretty (Z.abs d mod 10).

(** [str(n / 100)] for an integer [n]: the quotient is a float, and [str]
    prints the shortest decimal that reads back as that float, with at
    least one digit after the point.  For [n / 100] that is the integer
    part, a point, and the hundredths without a trailing zero.  (Python
    switches to exponent notation only from 1e16 on.) *)
Definition str_div100 (n : Z) : string :=
  let a := Z.abs n in
  let frac := a mod 100 in
  (if n <? 0 then "-" else "") +:+ pretty (a / 100) +:+ "." +:+
  (if frac mod 10 =? 0 then digit (frac / 10)
   else digit (frac / 10) +:+ digit frac).

(** [str((int(prob * 10000)) / 100) + "%"]. *)
Definition percent_label (prob : Q) : string :=
  str_div100 (py_int (prob * 10000)) +:+ "%".

(** ** The panel, module and fault loops (lines 313 to 354) *)

(** [(int(b[0]), int(b[1]))] and [(int(b[2]), int(b[3]))]; the stored
    coordinates are integers already. *)
Definition corner1 (b : box) : point := (bx1 b, by1 b).
Definition corner2 (b : box) : point := (bx2 b, by2 b).

Definition panel_outline (p : box) : drawop :=
  Rectangle (corner1 p) (corner2 p) (0, 255, 0) 5.          (* line 320 *)
Definition module_outline (m : box) : drawop :=
  Rectangle (corner1 m) (corner2 m) (255, 0, 0) 2.          (* line 327 *)
Definition panel_filled (p : box) : drawop :=
  Rectangle (corner1 p) (corner2 p) (0, 0, 255) (-1).       (* lines 337, 340 *)
Definition fault_outline (f : box) : drawop :=
  Rectangle (corner1 f) (corner2 f) (255, 255, 0) 5.        (* lines 338, 341 *)
Definition fault_text (f : box) (prob : Q) : drawop :=
  PutText (percent_label prob) (bx1 f - 30, by1 f - 1) 1 (255, 0, 0) 2.
                                                            (* lines 344 to 349 *)

(** [ord('s')], and the test [cv2.waitKey(1) & 0xFF == ord('s')]. *)
Definition ord_s : Z := 115.
Definition is_s (k : Z) : bool := Z.land k 255 =? ord_s.

(** Lines 324 to 332, for the panel [p] whose preview buffer is [temp]. *)
Fixpoint module_loop {T} (p : box) (temp : ref) (singles : list box)
    : M T unit :=
  match singles with
  | [] => mret tt
  | m :: rest =>
      if contained m p then
        draw temp (module_outline m);;
        waitKey 1000;;
        k ← waitKey 1;
        if is_s k then mret tt                      (* break *)
        else module_loop p temp rest
      else module_loop p temp rest
  end.

(** Lines 334 to 351.  [faults] pairs [pred_fault_solar_modules[ml]] with
    [prob_fault_solar_modules[ml]]; both lists are appended to together
    (lines 227 and 228), so they have one length. *)
Fixpoint fault_loop {T} (p : box) (temp2 img_detection : ref)
    (faults : list (box * Q)) : M T unit :=
  match faults with
  | [] => mret tt
  | (f, prob) :: rest =>
      (if contained f p then
         draw temp2 (panel_filled p);;
         draw temp2 (fault_outline f);;
         draw img_detection (panel_filled p);;
         draw img_detection (fault_outline f);;
         draw temp2 (fault_text f prob);;
         draw img_detection (fault_text f prob);;
         waitKey 1000;;
         mret tt
       else mret tt);;
      fault_loop p temp2 img_detection rest
  end.

(** Lines 313 to 354.  [img] is read anew for every panel, and [temp] and
    [temp2] are two names of it. *)
Fixpoint panel_loop {T} (fulls singles : list box) (faults : list (box * Q))
    (img_detection : ref) : M T unit :=
  match fulls with
  | [] => mret tt
  | p :: rest =>
      img ← new_image;
      let temp := img in
      let temp2 := img in
      waitKey 1000;;
      draw temp (panel_outline p);;
      waitKey 1000;;
      module_loop p temp singles;;
      fault_loop p temp2 img_detection faults;;
      k ← waitKey 1;
      if is_s k then mret tt                        (* break *)
      else panel_loop rest singles faults img_detection
  end.

(** Lines 311 to 354: the anomaly image is a copy of a fresh read of the
    file; the result is its reference. *)
Definition correlate {T} (fulls singles faults : list box) (probs : list Q)
    : M T ref :=
  img_detection ← new_image;
  panel_loop fulls singles (zip faults probs) img_detection;;
  mret img_detection.

(** ** One detector pass and the frame *)

(** A row of a detection tensor after non-max suppression:
    [*xyxy, conf, cls]. *)
Record row := Row { r_xyxy : Q * Q * Q * Q; r_conf : Q; r_cls : Z }.

(** [torch.round]: to the nearest integer, halves to the even one. *)
Definition round_half_even (x : Q) : Z :=
  let f := Qfloor x in
  let r := (x - inject_Z f)%Q in
  if Qltb r (1 # 2) then f
  else if Qltb (1 # 2) r then f + 1
  else if Z.even f then f else f + 1.

Definition round_box (c : Q * Q * Q * Q) : box :=
  let '(a, b, c, d) := c in
  Box (round_half_even a) (round_half_even b)
      (round_half_even c) (round_half_even d).

(** The arguments of [run] that the frame body reads. *)
Record args := Args
  { conf_thres : Q; iou_thres : Q; max_det : nat;
    view_img : bool; save_txt : bool; save_conf : bool; save_crop : bool;
    nosave : bool; classes : option (list Z); agnostic_nms : bool;
    augment : bool; visualize : bool }.

(** [save_img = not nosave and not source.endswith('.txt')], for an image
    source. *)
Definition save_img (a : args) : bool := negb (nosave a).

(** One item of the dataset: the preprocessed tensor and the parts of the
    path used in file names ([Path(p).stem], and
    [os.path.splitext(os.path.basename(path))]). *)
Record frame {tensor : Type} := Frame
  { f_im : tensor; f_stem : string; f_base : string; f_ext : string }.
Arguments frame : clear implicits.
Arguments Frame {tensor} _ _ _ _.

(** The lists and images a frame leaves behind, under their names in the
    source. *)
Record frame_out := FrameOut
  { pred_full_solar_modules : list box;
    prob_full_solar_modules : list Q;
    pred_fault_solar_modules : list box;
    prob_fault_solar_modules : list Q;
    pred_single_solar_modules : list box;
    prob_single_solar_modules : list Q;
    im1 : ref;             (* saved as _panel_detection *)
    im0 : ref;             (* saved as _panel_block_detection *)
    img_detection : ref    (* saved as _anomaly_detection *) }.

(** What [run] takes from the rest of the repository and from its
    libraries. *)
Class Externals (tensor raw : Type) := {
  (** the three detectors: [model(im, augment=..., visualize=...)] *)
  model : tensor -> bool -> bool -> raw;
  model_fault : tensor -> bool -> bool -> raw;
  model_single : tensor -> bool -> bool -> raw;
  (** [non_max_suppression(pred, conf, iou, classes, agnostic,
      max_det=...)], for the one image of the batch *)
  non_max_suppression :
    raw -> Q -> Q -> option (list Z) -> bool -> nat -> list row;
  (** [scale_coords(im.shape[2:], xyxy, im0.shape)] *)
  scale_coords : tensor -> Q * Q * Q * Q -> Q * Q * Q * Q;
  (** [colors(c, True)] and the annotator's label [f' {conf:.2f}'] *)
  colors : Z -> colour;
  conf_label : Q -> string;
  (** [xyxy2xywh(xyxy) / gn], the normalised centre and size *)
  xywh_norm : tensor -> box -> Q * Q * Q * Q;
  (** [save_one_box(xyxy, imc, file=save_dir / 'crops' / ...)]: writes one
      more file under [crops/] *)
  save_one_box : box -> Z -> string -> gmap string file -> gmap string file;
  (** [save_dir.glob(pattern)] *)
  glob : string -> gmap string file -> list string
}.

Section Pipeline.
Context {tensor raw : Type} `{!Externals tensor raw}.

(** Calling a detector.  With [visualize] unset the detectors get [False]
    (line 110) and write nothing.  With it set, line 110 also creates a
    directory for the frame, into which the detectors write their feature
    maps; the store, which keeps files by name, does not record that, and
    the properties of the files below are stated for runs without
    [visualize]. *)
Definition call_model (which : detector)
    (f : tensor -> bool -> bool -> raw) (im : tensor) (a : args)
    : M tensor raw :=
  fun w => (f im (augment a) (visualize a),
            set_calls (calls w ++ [(which, im)]) w).

(** [det[:, :4] = scale_coords(...).round()], for one row. *)
Definition row_box (fr : frame tensor) (r : row) : box :=
  round_box (scale_coords (f_im fr) (r_xyxy r)).

(** [open(txt_path + '.txt', 'a')] and one [write]. *)
Definition append_line (name : string) (l : label_line)
    (d : gmap string file) : gmap string file :=
  let old := match d !! name with
             | Some (TextFile ls) => ls
             | _ => []
             end in
  <[name := TextFile (old ++ [l])]> d.

Definition txt_name (fr : frame tensor) : string :=
  "labels/" +:+ f_stem fr +:+ ".txt".

(** [cv2.imwrite(str(save_dir / name), img)]. *)
Definition imwrite (name : string) (img : ref) : M tensor unit :=
  fun w => (tt, set_disk (<[name := ImageFile (pixels img w)]> (disk w)) w).

(** The loop "Write results" over [reversed(det)] (lines 151 to 172, 221
    to 240, 285 to 305); [pred] and [prob] are the two lists it appends
    to. *)
Fixpoint write_results (a : args) (fr : frame tensor) (im0 : ref)
    (rows : list row) (pred : list box) (prob : list Q)
    : M tensor (list box * list Q) :=
  match rows with
  | [] => mret (pred, prob)
  | r :: rest =>
      let xyxy := row_box fr r in
      let pred := pred ++ [xyxy] in
      let prob := prob ++ [r_conf r] in
      (if save_txt a then
         update_disk (append_line (txt_name fr)
           (LabelLine (r_cls r) (xywh_norm (f_im fr) xyxy)
              (if save_conf a then Some (r_conf r) else None)))
       else mret tt);;
      (if save_img a || save_crop a || view_img a then
         draw im0 (BoxLabel xyxy (conf_label (r_conf r)) (colors (r_cls r)));;
         if save_crop a then
           update_disk (save_one_box xyxy (r_cls r) (f_stem fr))
         else mret tt
       else mret tt);;
      write_results a fr im0 rest pred prob
  end.

(** "Process predictions" for the one image of the batch (lines 126 to
    172 and their two copies): the annotated copy of the frame and the
    two lists. *)
Definition process (a : args) (fr : frame tensor) (det : list row)
    : M tensor (ref * list box * list Q) :=
  im0 ← new_image;                                   (* im0s.copy() *)
  _ ← (if save_crop a then new_image else mret im0);  (* imc *)
  '(pred, prob) ← write_results a fr im0 (reverse det) [] [];
  mret (im0, pred, prob).

(** Lines 357 to 366, for an image source. *)
Definition save_results (a : args) (fr : frame tensor)
    (im1 im0 img_detection : ref) : M tensor unit :=
  if save_img a then
    imwrite (f_base fr +:+ "_panel_detection" +:+ f_ext fr) im1;;
    imwrite (f_base fr +:+ "_panel_block_detection" +:+ f_ext fr) im0;;
    imwrite (f_base fr +:+ "_anomaly_detection" +:+ f_ext fr) img_detection
  else mret tt.

(** The body of the loop over the dataset (lines 99 to 383). *)
Definition run_frame (a : args) (fr : frame tensor) : M tensor frame_out :=
  let im := f_im fr in
  (* panel detector *)
  pred ← call_model PanelModel model im a;
  let det := non_max_suppression pred (conf_thres a) (iou_thres a)
               (classes a) (agnostic_nms a) (max_det a) in
  '(im1, pred_full, prob_full) ← process a fr det;
  (if view_img a then waitKey 0;; mret tt else mret tt);;
  (* fault detector *)
  pred ← call_model FaultModel model_fault im a;
  let det := non_max_suppression pred (1 # 100) (1 # 100) None false
               (max_det a) in
  '(_, pred_fault, prob_fault) ← process a fr det;
  (* module detector *)
  pred ← call_model SingleModel model_single im a;
  pred ← call_model SingleModel model_single im a;
  let det := non_max_suppression pred (1 # 100) (1 # 100) None false
               (max_det a) in
  '(im0, pred_single, prob_single) ← process a fr det;
  let pred_single := py_sort pred_single in          (* line 307 *)
  let pred_full := py_sort pred_full in              (* line 308 *)
  img_detection ← correlate pred_full pred_single pred_fault prob_fault;
  save_results a fr im1 im0 img_detection;;
  mret (FrameOut pred_full prob_full pred_fault prob_fault
          pred_single prob_single im1 im0 img_detection).

(** The variant of the frame body that calls the module detector once: the
    first of the two calls (lines 242 to 244) is removed. *)
Definition run_frame_single_call (a : args) (fr : frame tensor)
    : M tensor frame_out :=
  let im := f_im fr in
  pred ← call_model PanelModel model im a;
  let det := non_max_suppression pred (conf_thres a) (iou_thres a)
               (classes a) (agnostic_nms a) (max_det a) in
  '(im1, pred_full, prob_full) ← process a fr det;
  (if view_img a then waitKey 0;; mret tt else mret tt);;
  pred ← call_model FaultModel model_fault im a;
  let det := non_max_suppression pred (1 # 100) (1 # 100) None false
               (max_det a) in
  '(_, pred_fault, prob_fault) ← process a fr det;
  pred ← call_model SingleModel model_single im a;
  let det := non_max_suppression pred (1 # 100) (1 # 100) None false
               (max_det a) in
  '(im0, pred_single, prob_single) ← process a fr det;
  let pred_single := py_sort pred_single in
  let pred_full := py_sort pred_full in
  img_detection ← correlate pred_full pred_single pred_fault prob_fault;
  save_results a fr im1 im0 img_detection;;
  mret (FrameOut pred_full prob_full pred_fault prob_fault
          pred_single prob_single im1 im0 img_detection).

(** The loop over the dataset, for either frame body. *)
Fixpoint frames (body : args -> frame tensor -> M tensor frame_out)
    (a : args) (dataset : list (frame tensor)) : M tensor (list frame_out) :=
  match dataset with
  | [] => mret []
  | fr :: rest =>
      o ← body a fr;
      os ← frames body a rest;
      mret (o :: os)
  end.

(** Lines 396 to 409: what [run] returns. *)
Definition saved (a : args) (d : gmap string file)
    : option (list string) * option (list string) :=
  let saved_images :=
    if save_img a then
      match glob "*.jpg" d ++ glob "*.png" d with
      | [] => None
      | image_files => Some image_files
      end
    else None in
  let saved_txts :=
    if save_txt a then
      match glob "labels/*.txt" d with
      | [] => None
      | txt_files => Some txt_files
      end
    else None in
  (saved_images, saved_txts).

Definition run_with (body : args -> frame tensor -> M tensor frame_out)
    (a : args) (dataset : list (frame tensor))
    : M tensor (option (list string) * option (list string)) :=
  frames body a dataset;;
  d ← read_disk;
  mret (saved a d).

Definition run := run_with run_frame.
Definition run_single_call := run_with run_frame_single_call.

End Pipeline.

(** ** Exceptions *)

(** The exceptions the embedded calls can raise. *)
Inductive exn :=
  | KeyError (k : string)
      (* d[k] or del d[k] with k not in d *)
  | TypeError (k : string)
      (* run() got an unexpected keyword argument k *)
  | Raised (what : string).
      (* an exception of a function that is not in this file *)

#[global] Instance exn_eq_dec : EqDecision exn.
Proof. solve_decision. Defined.

#[global] Instance exn_ret : MRet (sum exn) := fun A x => inr x.
#[global] Instance exn_bind : MBind (sum exn) := fun A B f m =>
  match m with
  | inl e => inl e
  | inr x => f x
  end.

(** ** [parse_opt], [main] and [run_detection] *)

(** [l * n] on a list. *)
Definition py_list_mul {A} (l : list A) (n : Z) : list A :=
  mjoin (replicate (Z.to_nat n) l).

(** [opt.imgsz *= 2 if len(opt.imgsz) == 1 else 1] (line 440). *)
Definition expand_imgsz (imgsz : list Z) : list Z :=
  py_list_mul imgsz (if (length imgsz =? 1)%nat then 2 else 1).

(** The parameters of [run] (lines 26 to 51). *)
Definition run_params : list string :=
  ["weights"; "source"; "data"; "imgsz"; "conf_thres"; "iou_thres";
   "max_det"; "device"; "view_img"; "save_txt"; "save_conf"; "save_crop";
   "nosave"; "classes"; "agnostic_nms"; "augment"; "visualize"; "update";
   "project"; "name"; "exist_ok"; "line_thickness"; "hide_labels";
   "hide_conf"; "half"; "dnn"].

(** The attributes of the namespace [parse_opt] returns, one per
    [add_argument] (lines 413 to 438). *)
Definition opt_dests : list string :=
  ["weights"; "source"; "data"; "imgsz"; "conf_thres"; "iou_thres";
   "max_det"; "device"; "view_img"; "save_txt"; "save_conf"; "save_crop";
   "nosave"; "classes"; "agnostic_nms"; "augment"; "visualize"; "update";
   "project"; "name"; "exist_ok"; "line_thickness"; "hide_labels";
   "hide_conf"; "half"; "dnn"].

(** A Python [dict] with string keys: the items in insertion order, no key
    twice. *)
Abbreviation dict V := (list (string * V)).

Definition dict_has {V} (k : string) (d : dict V) : bool :=
  bool_decide (k ∈ d.*1).

(** [d[k]]. *)
Definition dict_get {V} (k : string) (d : dict V) : exn + V :=
  match list_find (fun kv => kv.1 = k) d with
  | Some (_, kv) => inr kv.2
  | None => inl (KeyError k)
  end.

(** [d[k] = v]: a present key keeps its place, a new one goes last. *)
Definition dict_set {V} (k : string) (v : V) (d : dict V) : dict V :=
  if dict_has k d
  then (fun kv => if decide (kv.1 = k) then (k, v) else kv) <$> d
  else d ++ [(k, v)].

(** [del d[k]]. *)
Definition dict_del {V} (k : string) (d : dict V) : exn + dict V :=
  if dict_has k d
  then inr (filter (fun kv => kv.1 <> k) d)
  else inl (KeyError k).

Module RunDetection.

(** The list [keys] of [run_detection] (lines 464 to 470). *)
Definition keys : list string :=
  ["weights"; "source"; "data"; "img_height"; "img_width"; "conf_thres";
   "iou_thres"; "max_det"; "device"; "view_img"; "save_txt"; "save_conf";
   "save_crop"; "nosave"; "classes"; "agnostic_nms"; "augment"; "visualize";
   "update"; "project"; "name"; "exist_ok"; "line_thickness"; "hide_labels";
   "hide_conf"; "half"; "dnn"; "enable_second_stage_classifier"].

Section Calls.
(** Python values [V] and results [R] of [run]; [int(x)], the pair
    [(h, w)] as a value, and [run] on keyword arguments that are all among
    its parameters (the missing ones take their defaults). *)
Context {V R : Type}.
Variable to_int : V -> exn + Z.
Variable tuple2 : Z -> Z -> V.
Variable run_kw : dict V -> R.

(** [run] called with the items of [kwargs] as keyword arguments: a
    keyword that is not a parameter is a [TypeError]. *)
Definition call_run (kwargs : dict V) : exn + R :=
  match filter (fun kv => kv.1 ∉ run_params) kwargs with
  | (k, _) :: _ => inl (TypeError k)
  | [] => inr (run_kw kwargs)
  end.

(** [main], after [check_requirements]: [run] on the attributes of [opt]
    as keyword arguments, for the values of the namespace in the order of
    [opt_dests]. *)
Definition main (opt : list V) : exn + R :=
  call_run (zip opt_dests opt).

(** [run_detection] on its positional arguments (lines 450 to 484). *)
Definition run_detection (args : list V) : exn + R :=
  let kwargs := zip keys args in                   (* dict(zip(keys, args)) *)
  hv ← dict_get "img_height" kwargs;
  h ← to_int hv;
  wv ← dict_get "img_width" kwargs;
  w ← to_int wv;
  let imgsz := tuple2 h w in
  let kwargs := dict_set "imgsz" imgsz kwargs in
  kwargs ← dict_del "img_height" kwargs;
  kwargs ← dict_del "img_width" kwargs;
  call_run kwargs.

End Calls.
End RunDetection.

(** * Part II: notions used to state the properties *)

(** ** The store *)

(** Drawing the calls [ops], in order, on buffer [r]. *)
Definition paint (r : ref) (ops : canvas) (h : list canvas) : list canvas :=
  alter (fun c => c ++ ops) r h.

(** The buffer read at line 314 in iteration [i] of the panel loop, when the
    anomaly image is [img_detection]: buffers are numbered as they are
    created. *)
Definition preview_ref (img_detection : ref) (i : nat) : ref :=
  (S img_detection + i)%nat.

(** Module [m] (fault [f]) is outlined on the preview of panel number [i]:
    the program keeps no record of which detection belongs to which panel
    other than what it draws while it visits the panel. *)
Definition assigned_module {T} (d : ref) (w : world T) (i : nat) (m : box)
    : Prop :=
  module_outline m ∈ pixels (preview_ref d i) w.
Definition assigned_fault {T} (d : ref) (w : world T) (i : nat) (f : box)
    : Prop :=
  fault_outline f ∈ pixels (preview_ref d i) w.

(** Panel number [i], whose box is [p], was visited by the panel loop: its
    preview was read (line 314) and its outline drawn on it (line 320). *)
Definition visited {T} (d : ref) (w : world T) (i : nat) (p : box) : Prop :=
  panel_outline p ∈ pixels (preview_ref d i) w.

(** The midpoint lies on the vertical or horizontal line through an edge of
    the panel. *)
Definition on_edge (d p : box) : Prop :=
  (mid_point_x d == inject_Z (bx1 p))%Q \/
  (mid_point_x d == inject_Z (bx2 p))%Q \/
  (mid_point_y d == inject_Z (by1 p))%Q \/
  (mid_point_y d == inject_Z (by2 p))%Q.

(** No entry of the key list is read as [s]: the operator never asks to
    stop. *)
Definition no_s (ks : list Z) : Prop := Forall (fun k => is_s k = false) ks.

(** ** The loops in closed form *)

(** The modules outlined for panel [p] and the keys left, when the keys at
    the start of the module loop are [ks]. *)
Fixpoint module_scan (p : box) (singles : list box) (ks : list Z)
    : list box * list Z :=
  match singles with
  | [] => ([], ks)
  | m :: rest =>
      if contained m p then
        if is_s (hd (-1) (tl ks)) then ([m], tl (tl ks))
        else let '(l, ks') := module_scan p rest (tl (tl ks)) in (m :: l, ks')
      else module_scan p rest ks
  end.

(** The calls one fault adds to the preview and to the anomaly image while
    panel [p] is visited. *)
Definition fault_draws (p : box) (fp : box * Q) : canvas :=
  if contained fp.1 p
  then [panel_filled p; fault_outline fp.1; fault_text fp.1 fp.2]
  else [].

Definition faults_in (p : box) (faults : list (box * Q)) : list (box * Q) :=
  filter (fun fp => contained fp.1 p = true) faults.

(** The panels the loop visits, each with its preview, and the keys left. *)
Fixpoint panel_scan (fulls singles : list box) (faults : list (box * Q))
    (ks : list Z) : list (box * canvas) * list Z :=
  match fulls with
  | [] => ([], ks)
  | p :: rest =>
      let '(drawn, ks2) := module_scan p singles (tl (tl ks)) in
      let ks3 := drop (length (faults_in p faults)) ks2 in
      let c := panel_outline p :: (module_outline <$> drawn)
                 ++ (faults ≫= fault_draws p) in
      if is_s (hd (-1) ks3) then ([(p, c)], tl ks3)
      else let '(l, ks') := panel_scan rest singles faults (tl ks3) in
           ((p, c) :: l, ks')
  end.

(** The calls the loop adds to the anomaly image for the panels [ps]. *)
Definition anomaly_draws (ps : list box) (faults : list (box * Q)) : canvas :=
  ps ≫= (fun p => faults ≫= fault_draws p).

(** The preview of panel [p] when no key stops the module loop. *)
Definition full_preview (p : box) (singles : list box)
    (faults : list (box * Q)) : canvas :=
  panel_outline p
    :: (module_outline <$> filter (fun m => contained m p = true) singles)
    ++ (faults ≫= fault_draws p).

(** ** The frame in closed form *)

Section Closed.
Context {tensor raw : Type} `{!Externals tensor raw}.

(** The detections each pass works on. *)
Definition dets_panel (a : args) (fr : frame tensor) : list row :=
  non_max_suppression (model (f_im fr) (augment a) (visualize a))
    (conf_thres a) (iou_thres a) (classes a) (agnostic_nms a) (max_det a).
Definition dets_fault (a : args) (fr : frame tensor) : list row :=
  non_max_suppression (model_fault (f_im fr) (augment a) (visualize a))
    (1 # 100) (1 # 100) None false (max_det a).
Definition dets_single (a : args) (fr : frame tensor) : list row :=
  non_max_suppression (model_single (f_im fr) (augment a) (visualize a))
    (1 # 100) (1 # 100) None false (max_det a).

(** The condition under which a pass draws its boxes. *)
Definition draws_boxes (a : args) : bool :=
  save_img a || save_crop a || view_img a.

Definition box_label_of (fr : frame tensor) (r : row) : drawop :=
  BoxLabel (row_box fr r) (conf_label (r_conf r)) (colors (r_cls r)).

(** What a pass draws on its copy of the frame for the rows [rows]. *)
Definition box_labels (a : args) (fr : frame tensor) (rows : list row)
    : canvas :=
  if draws_boxes a then box_label_of fr <$> rows else [].

(** What a pass writes for one row, and for all of them. *)
Definition row_disk (a : args) (fr : frame tensor) (dk : gmap string file)
    (r : row) : gmap string file :=
  let dk1 :=
    if save_txt a then
      append_line (txt_name fr)
        (LabelLine (r_cls r) (xywh_norm (f_im fr) (row_box fr r))
           (if save_conf a then Some (r_conf r) else None)) dk
    else dk in
  if draws_boxes a && save_crop a
  then save_one_box (row_box fr r) (r_cls r) (f_stem fr) dk1
  else dk1.
Definition rows_disk (a : args) (fr : frame tensor) (rows : list row)
    (dk : gmap string file) : gmap string file :=
  foldl (row_disk a fr) dk rows.

(** The buffers a pass creates: its annotated copy and, with [save_crop],
    the copy kept for cropping. *)
Definition pass_buffers (a : args) (fr : frame tensor) (det : list row)
    : list canvas :=
  box_labels a fr (reverse det) :: (if save_crop a then [[]] else []).

Definition frame_fulls (a : args) (fr : frame tensor) : list box :=
  py_sort (row_box fr <$> reverse (dets_panel a fr)).
Definition frame_singles (a : args) (fr : frame tensor) : list box :=
  py_sort (row_box fr <$> reverse (dets_single a fr)).
Definition frame_faults (a : args) (fr : frame tensor) : list (box * Q) :=
  zip (row_box fr <$> reverse (dets_fault a fr))
      (r_conf <$> reverse (dets_fault a fr)).

(** The keys when the panel loop starts. *)
Definition frame_keys (a : args) (ks : list Z) : list Z :=
  if view_img a then tl ks else ks.

(** The panels visited in the frame, with their previews. *)
Definition frame_visited (a : args) (fr : frame tensor) (ks : list Z)
    : list (box * canvas) :=
  (panel_scan (frame_fulls a fr) (frame_singles a fr) (frame_faults a fr)
     (frame_keys a ks)).1.

(** What the anomaly image holds at the end of the frame. *)
Definition frame_anomaly (a : args) (fr : frame tensor) (ks : list Z)
    : canvas :=
  anomaly_draws (frame_visited a fr ks).*1 (frame_faults a fr).

(** The result and the final state of the frame body; [cs] lists the
    detector calls made. *)
Definition frame_closed (cs : list detector) (a : args) (fr : frame tensor)
    (w : world tensor) : frame_out * world tensor :=
  let h1 := heap w ++ pass_buffers a fr (dets_panel a fr) in
  let h2 := h1 ++ pass_buffers a fr (dets_fault a fr) in
  let h3 := h2 ++ pass_buffers a fr (dets_single a fr) in
  let h4 := h3 ++ frame_anomaly a fr (keys w)
                  :: (frame_visited a fr (keys w)).*2 in
  let dk3 :=
    rows_disk a fr (reverse (dets_single a fr))
      (rows_disk a fr (reverse (dets_fault a fr))
         (rows_disk a fr (reverse (dets_panel a fr)) (disk w))) in
  let dk4 :=
    if save_img a then
      <[f_base fr +:+ "_anomaly_detection" +:+ f_ext fr :=
          ImageFile (frame_anomaly a fr (keys w))]>
        (<[f_base fr +:+ "_panel_block_detection" +:+ f_ext fr :=
             ImageFile (box_labels a fr (reverse (dets_single a fr)))]>
           (<[f_base fr +:+ "_panel_detection" +:+ f_ext fr :=
                ImageFile (box_labels a fr (reverse (dets_panel a fr)))]>
              dk3))
    else dk3 in
  (FrameOut (frame_fulls a fr) (r_conf <$> reverse (dets_panel a fr))
     (row_box fr <$> reverse (dets_fault a fr))
     (r_conf <$> reverse (dets_fault a fr))
     (frame_singles a fr) (r_conf <$> reverse (dets_single a fr))
     (length (heap w)) (length h2) (length h3),
   World h4
     (panel_scan (frame_fulls a fr) (frame_singles a fr) (frame_faults a fr)
        (frame_keys a (keys w))).2
     dk4
     (calls w ++ ((fun c => (c, f_im fr)) <$> cs))).

(** Two states that differ at most in the record of detector calls. *)
Definition same_but_calls (w w' : world tensor) : Prop :=
  heap w = heap w' /\ keys w = keys w' /\ disk w = disk w'.

(** Two argument records that differ at most in the two thresholds. *)
Definition same_but_thresholds (a a' : args) : Prop :=
  a' = Args (conf_thres a') (iou_thres a') (max_det a) (view_img a)
         (save_txt a) (save_conf a) (save_crop a) (nosave a) (classes a)
         (agnostic_nms a) (augment a) (visualize a).

End Closed.

(** ** The label as the specification words it *)

(** An integer number of hundredths with exactly two decimals. *)
Definition two_decimals (n : Z) : string :=
  let a := Z.abs n in
  (if n <? 0 then "-" else "") +:+ pretty (a / 100) +:+ "." +:+
  digit (a mod 100 / 10) +:+ digit (a mod 100).

(** [round(score*10000)/100] formatted as ["NN.NN%"]: the scaled score is
    rounded to the nearest integer (Python's [round], halves to even) and
    printed as a percentage with two decimals. *)
Definition spec_percent_label (score : Q) : string :=
  two_decimals (round_half_even (score * 10000)) +:+ "%".

(** ** A small instance, to run the program on *)

(** The tensor of a toy image lists what each detector reports on it:
    panels, faults, modules. *)
Definition toy_tensor : Type := list row * list row * list row.

(** A confidence threshold stands in for non-max suppression. *)
#[global] Instance toy : Externals toy_tensor (list row) := {
  model im _ _ := im.1.1;
  model_fault im _ _ := im.1.2;
  model_single im _ _ := im.2;
  non_max_suppression pred conf iou _ _ max_det :=
    take max_det (filter (fun r => Qltb conf (r_conf r) = true) pred);
  scale_coords _ c := c;
  colors _ := (0, 0, 255);
  conf_label _ := "";
  xywh_norm _ _ := (0, 0, 0, 0)%Q;
  save_one_box _ _ _ d := d;
  glob _ d := (map_to_list d).*1
}.

Definition toy_row (x1 y1 x2 y2 : Z) (conf : Q) : row :=
  Row (inject_Z x1, inject_Z y1, inject_Z x2, inject_Z y2) conf 0.

Definition toy_frame (panels faults modules : list row) : frame toy_tensor :=
  Frame (panels, faults, modules) "a" "a" ".jpg".

Definition toy_args (view : bool) : args :=
  Args (1 # 4) (45 # 100) 1000 view false false false false None false
    false false.

Definition world0 {T} (ks : list Z) : world T := World [] ks ∅ [].

(** ** Reading the files of a frame *)

(** The lines of the label file [name]; none when there is no such file. *)
Definition file_lines (name : string) (d : gmap string file)
    : list label_line :=
  match d !! name with
  | Some (TextFile ls) => ls
  | _ => []
  end.

Section Files.
Context {tensor raw : Type} `{!Externals tensor raw}.

(** The line written for one row (lines 162 and 163). *)
Definition label_of (a : args) (fr : frame tensor) (r : row) : label_line :=
  LabelLine (r_cls r) (xywh_norm (f_im fr) (row_box fr r))
    (if save_conf a then Some (r_conf r) else None).

(** The lines of the three passes of a frame, in the order written. *)
Definition frame_labels (a : args) (fr : frame tensor) : list label_line :=
  (label_of a fr <$> reverse (dets_panel a fr))
  ++ (label_of a fr <$> reverse (dets_fault a fr))
  ++ (label_of a fr <$> reverse (dets_single a fr)).

(** The names of the three images saved for a frame. *)
Definition image_names (fr : frame tensor) : list string :=
  [f_base fr +:+ "_panel_detection" +:+ f_ext fr;
   f_base fr +:+ "_panel_block_detection" +:+ f_ext fr;
   f_base fr +:+ "_anomaly_detection" +:+ f_ext fr].
End Files.

(** ** Reading a percentage back *)

Definition digit_val (c : Ascii.ascii) : option Z :=
  let n := Z.of_N (Ascii.N_of_ascii c) in
  if (48 <=? n) && (n <=? 57) then Some (n - 48) else None.

(** The digits before the point, and what follows the point. *)
Fixpoint parse_int_part (s : string) (acc : Z) : option (Z * string) :=
  match s with
  | EmptyString => None
  | String c rest =>
      if Z.of_N (Ascii.N_of_ascii c) =? 46 then Some (acc, rest)   (* "." *)
      else match digit_val c with
           | Some d => parse_int_part rest (acc * 10 + d)
           | None => None
           end
  end.

(** The number of hundredths a decimal with one or two decimals stands
    for. *)
Definition parse_div100 (s : string) : option Z :=
  match parse_int_part s 0 with
  | Some (i, String a EmptyString) =>
      match digit_val a with
      | Some da => Some (i * 100 + da * 10)
      | None => None
      end
  | Some (i, String a (String b EmptyString)) =>
      match digit_val a, digit_val b with
      | Some da, Some db => Some (i * 100 + da * 10 + db)
      | _, _ => None
      end
  | _ => None
  end.

(** ** A small instance of the calls *)

(** Integers as values, [run] returning the keyword arguments it was
    given. *)
Definition toy_to_int (v : Z) : exn + Z := inr v.
Definition toy_tuple2 (h w : Z) : Z := h * 100000 + w.
Definition toy_run_kw (kw : dict Z) : dict Z := kw.

(** * Part III: properties *)

(** ** Geometry *)

Lemma Qltb_lt (a b : Q) : Qltb a b = true <-> (a < b)%Q.
Proof.
  unfold Qltb. rewrite negb_true_iff. split.
  - intros H. apply Qnot_le_lt. intros Hle.
    apply Qle_bool_iff in Hle. congruence.
  - intros H. destruct (Qle_bool b a) eqn:E; [|done].
    apply Qle_bool_iff in E. exfalso. by apply (Qlt_not_le a b).
Qed.

(** Comparing an integer with a half-sum is comparing its double with the
    sum. *)
Lemma Qltb_mid_l (a s : Z) :
  Qltb (inject_Z a) (inject_Z s / 2) = (2 * a <? s).
Proof.
  unfold Qltb, Qle_bool, Qdiv, Qmult, Qinv, inject_Z. simpl.
  change (Z.pos (1 * 2)) with 2.
  destruct (Z.ltb_spec (2 * a) s), (Z.leb_spec (s * 1 * 1) (a * 2));
    simpl; lia.
Qed.

Lemma Qltb_mid_r (s b : Z) :
  Qltb (inject_Z s / 2) (inject_Z b) = (s <? 2 * b).
Proof.
  unfold Qltb, Qle_bool, Qdiv, Qmult, Qinv, inject_Z. simpl.
  change (Z.pos (1 * 2)) with 2.
  destruct (Z.ltb_spec s (2 * b)), (Z.leb_spec (b * 2) (s * 1 * 1));
    simpl; lia.
Qed.

Lemma contained_Z (d p : box) :
  contained d p =
    (2 * bx1 p <? bx1 d + bx2 d) && (bx1 d + bx2 d <? 2 * bx2 p) &&
    (2 * by1 p <? by1 d + by2 d) && (by1 d + by2 d <? 2 * by2 p).
Proof.
  unfold contained, inside, mid_point_x, mid_point_y.
  by rewrite !Qltb_mid_l, !Qltb_mid_r.
Qed.

Lemma contained_true (d p : box) :
  contained d p = true <->
    2 * bx1 p < bx1 d + bx2 d < 2 * bx2 p /\
    2 * by1 p < by1 d + by2 d < 2 * by2 p.
Proof.
  rewrite contained_Z, !andb_true_iff, !Z.ltb_lt. lia.
Qed.

Lemma mid_eq_Z (s a : Z) : (inject_Z s / 2 == inject_Z a)%Q <-> s = 2 * a.
Proof.
  unfold Qeq, Qdiv, Qmult, Qinv, inject_Z. simpl. lia.
Qed.

Lemma on_edge_not_contained (d p : box) :
  on_edge d p -> contained d p = false.
Proof.
  unfold on_edge, mid_point_x, mid_point_y. rewrite !mid_eq_Z.
  intros H. destruct (contained d p) eqn:E; [|done].
  apply contained_true in E. lia.
Qed.

(** ** Sorting *)

#[global] Instance box_le_total : Total box_le.
Proof. intros a b. unfold box_le. lia. Qed.

#[global] Instance box_le_trans : Transitive box_le.
Proof. intros a b c. unfold box_le. lia. Qed.

#[global] Instance box_le_antisymm : AntiSymm (=) box_le.
Proof.
  intros [a1 a2 a3 a4] [b1 b2 b3 b4]. unfold box_le. simpl.
  intros H1 H2. f_equal; lia.
Qed.

Lemma py_sort_sorted (l : list box) : Sorted box_le (py_sort l).
Proof. apply (Sorted_merge_sort box_le). Qed.

Lemma py_sort_perm (l : list box) : py_sort l ≡ₚ l.
Proof. apply merge_sort_Permutation. Qed.

Lemma py_sort_elem_of (b : box) (l : list box) : b ∈ py_sort l <-> b ∈ l.
Proof. by rewrite py_sort_perm. Qed.

(** Equal keys are equal boxes, so the elements with a given key keep
    their order (and everything else about them). *)
Lemma py_sort_stable (l : list box) (k : box) :
  filter (fun b => b = k) (py_sort l) = filter (fun b => b = k) l.
Proof.
  assert (Hrep : forall l' : list box,
    filter (fun b => b = k) l' =
      replicate (length (filter (fun b => b = k) l')) k).
  { induction l' as [|b l' IH]; [done|].
    rewrite filter_cons. case_decide; simpl; [|done].
    subst. by rewrite <- IH. }
  rewrite (Hrep (py_sort l)), (Hrep l).
  by rewrite (py_sort_perm l).
Qed.

(** ** The store *)

Lemma paint_lookup (r r' : ref) (ops : canvas) (h : list canvas) :
  paint r ops h !! r' =
    if decide (r = r') then (fun c => c ++ ops) <$> h !! r else h !! r'.
Proof. apply list_lookup_alter. Qed.

Lemma length_paint (r : ref) (ops : canvas) (h : list canvas) :
  length (paint r ops h) = length h.
Proof. apply length_alter. Qed.

Lemma paint_nil (r : ref) (h : list canvas) : paint r [] h = h.
Proof.
  apply list_eq. intros i. rewrite paint_lookup. case_decide; [|done].
  subst. destruct (h !! i); simpl; [|done]. by rewrite app_nil_r.
Qed.

Lemma paint_paint (r : ref) (a b : canvas) (h : list canvas) :
  paint r b (paint r a h) = paint r (a ++ b) h.
Proof.
  apply list_eq. intros i. rewrite !paint_lookup.
  destruct (decide (r = i)) as [->|]; [|done].
  rewrite decide_True by done.
  destruct (h !! i); simpl; [|done]. by rewrite app_assoc.
Qed.

Lemma paint_app_l (r : ref) (ops : canvas) (h h' : list canvas) :
  (r < length h)%nat -> paint r ops (h ++ h') = paint r ops h ++ h'.
Proof. apply alter_app_l. Qed.

Lemma paint_new (ops c : canvas) (h : list canvas) :
  paint (length h) ops (h ++ [c]) = h ++ [c ++ ops].
Proof.
  unfold paint. replace (length h) with (length h + 0)%nat at 1 by lia.
  by rewrite alter_app_r.
Qed.

Lemma paint_one (r : ref) (op : drawop) (h : list canvas) :
  alter (fun c => c ++ [op]) r h = paint r [op] h.
Proof. done. Qed.

(** A drawing call leaves every other buffer as it was. *)
Lemma draw_frame {T} (r r' : ref) (op : drawop) (w : world T) :
  r <> r' -> pixels r' (draw r op w).2 = pixels r' w.
Proof.
  intros Hne. unfold pixels, draw. simpl.
  by rewrite list_lookup_alter_ne.
Qed.

(** ... and adds its call to the buffer it is given. *)
Lemma draw_self {T} (r : ref) (op : drawop) (w : world T) :
  (r < length (heap w))%nat -> pixels r (draw r op w).2 = pixels r w ++ [op].
Proof.
  intros Hr. unfold pixels, draw. simpl.
  rewrite list_lookup_alter_eq.
  destruct (lookup_lt_is_Some_2 (heap w) r Hr) as [c ->]. done.
Qed.

(** Two stores painted in different orders agree buffer by buffer. *)
Ltac paint_eq :=
  apply list_eq; intros ?;
  rewrite ?paint_lookup;
  repeat (case_decide; subst; try congruence);
  repeat match goal with |- context [?h !! ?r] => destruct (h !! r) end;
  simpl; rewrite <- ?app_assoc; done.

(** Unfolding one layer of state passing. *)
Ltac run_step :=
  unfold mbind, M_bind, bind, mret, M_ret, ret, draw, waitKey, new_image,
    update_disk, read_disk, set_heap, set_keys, set_disk, set_calls;
  cbn.

(** Deciding a closed membership by evaluation. *)
Ltac by_compute :=
  first [ apply (bool_decide_eq_true_1 _); vm_compute; reflexivity
        | apply (bool_decide_eq_false_1 _); vm_compute; reflexivity ].

Lemma drop_S_tail {A} (n : nat) (l : list A) : drop (S n) l = drop n (tail l).
Proof. destruct l; simpl; [by rewrite drop_nil|done]. Qed.

(** ** The loops *)

Lemma module_loop_spec {T} (p : box) (temp : ref) (singles : list box)
    (w : world T) :
  module_loop p temp singles w =
    (tt, set_keys (module_scan p singles (keys w)).2
           (set_heap (paint temp
                        (module_outline <$> (module_scan p singles (keys w)).1)
                        (heap w)) w)).
Proof.
  revert w. induction singles as [|m rest IH]; intros [h ks dk cl]; simpl.
  - by rewrite paint_nil.
  - destruct (contained m p) eqn:Hc; [|apply IH].
    run_step. destruct (is_s (hd (-1) (tl ks))) eqn:Hs; [done|].
    rewrite IH. cbn.
    destruct (module_scan p rest (tl (tl ks))) as [l ks'].
    unfold set_keys, set_heap. cbn. f_equal. f_equal.
    rewrite paint_one, paint_paint. done.
Qed.

Lemma fault_loop_spec {T} (p : box) (temp2 d : ref)
    (faults : list (box * Q)) (w : world T) :
  temp2 <> d ->
  fault_loop p temp2 d faults w =
    (tt, set_keys (drop (length (faults_in p faults)) (keys w))
           (set_heap (paint d (faults ≫= fault_draws p)
                        (paint temp2 (faults ≫= fault_draws p) (heap w)))
              w)).
Proof.
  intros Hne. revert w.
  induction faults as [|[f prob] rest IH]; intros [h ks dk cl]; simpl.
  - by rewrite !paint_nil.
  - unfold faults_in. rewrite filter_cons. unfold fault_draws at 1 3.
    cbn. destruct (contained f p) eqn:Hc.
    + run_step. rewrite IH. rewrite decide_True by done.
      unfold set_keys, set_heap. cbn -[drop]. rewrite drop_S_tail.
      f_equal. f_equal. rewrite !paint_one. paint_eq.
    + run_step. rewrite IH. rewrite decide_False by done. done.
Qed.

Lemma panel_loop_spec {T} (fulls singles : list box)
    (faults : list (box * Q)) (d : ref) (w : world T) :
  (d < length (heap w))%nat ->
  panel_loop fulls singles faults d w =
    (tt, set_keys (panel_scan fulls singles faults (keys w)).2
           (set_heap
              (paint d
                 (anomaly_draws (panel_scan fulls singles faults (keys w)).1.*1
                    faults)
                 (heap w)
               ++ (panel_scan fulls singles faults (keys w)).1.*2) w)).
Proof.
  revert w. induction fulls as [|p rest IH]; intros [h ks dk cl] Hd;
    simpl in Hd; simpl.
  - unfold anomaly_draws. simpl. by rewrite paint_nil, app_nil_r.
  - run_step. rewrite module_loop_spec. cbn.
    destruct (module_scan p singles (tl (tl ks))) as [drawn ks2]. cbn.
    rewrite fault_loop_spec by (cbn; lia). cbn.
    set (ks3 := drop (length (faults_in p faults)) ks2).
    rewrite paint_one, paint_new.
    rewrite (paint_new (module_outline <$> drawn)).
    rewrite (paint_new (faults ≫= fault_draws p)). simpl.
    rewrite paint_app_l by lia.
    destruct (is_s (hd (-1) ks3)) eqn:Hs.
    + unfold anomaly_draws. simpl. by rewrite app_nil_r.
    + rewrite IH by (cbn; rewrite length_app, length_paint; lia).
      cbn. destruct (panel_scan rest singles faults (tl ks3)) as [l ks'].
      cbn. rewrite paint_app_l by (rewrite length_paint; lia).
      rewrite paint_paint, <- app_assoc. done.
Qed.

Lemma correlate_spec {T} (fulls singles faults : list box) (probs : list Q)
    (w : world T) :
  correlate fulls singles faults probs w =
    (length (heap w),
     set_keys (panel_scan fulls singles (zip faults probs) (keys w)).2
       (set_heap
          (heap w
           ++ anomaly_draws
                (panel_scan fulls singles (zip faults probs) (keys w)).1.*1
                (zip faults probs)
           :: (panel_scan fulls singles (zip faults probs) (keys w)).1.*2)
          w)).
Proof.
  destruct w as [h ks dk cl]. unfold correlate. run_step.
  rewrite panel_loop_spec by (cbn; rewrite length_app; simpl; lia).
  cbn. rewrite paint_new. simpl. by rewrite <- app_assoc.
Qed.

(** ** The closed forms *)

Lemma no_s_hd (ks : list Z) : no_s ks -> is_s (hd (-1) ks) = false.
Proof. intros H. destruct H; [reflexivity|done]. Qed.

Lemma no_s_tl (ks : list Z) : no_s ks -> no_s (tl ks).
Proof. intros H. destruct H; [constructor|done]. Qed.

Lemma no_s_drop (n : nat) (ks : list Z) : no_s ks -> no_s (drop n ks).
Proof. apply Forall_drop. Qed.

(** The module loop outlines the contained modules of a prefix of the
    list. *)
Lemma module_scan_prefix (p : box) (singles : list box) (ks : list Z) :
  exists n : nat,
    (module_scan p singles ks).1 =
      filter (fun m => contained m p = true) (take n singles).
Proof.
  revert ks. induction singles as [|m rest IH]; intros ks; simpl.
  - by exists 0%nat.
  - destruct (contained m p) eqn:Hc.
    + destruct (is_s (hd (-1) (tl ks))).
      * exists 1%nat. simpl. rewrite take_0, filter_cons, decide_True by done.
        done.
      * destruct (IH (tl (tl ks))) as [n Hn].
        destruct (module_scan p rest (tl (tl ks))) as [l ks'].
        exists (S n). simpl in *. rewrite filter_cons, decide_True by done.
        by rewrite Hn.
    + destruct (IH ks) as [n Hn]. exists (S n). simpl.
      rewrite filter_cons, decide_False by congruence. done.
Qed.

(** With no [s] among the keys it outlines all of them. *)
Lemma module_scan_no_s (p : box) (singles : list box) (ks : list Z) :
  no_s ks ->
  (module_scan p singles ks).1 = filter (fun m => contained m p = true) singles
  /\ no_s (module_scan p singles ks).2.
Proof.
  revert ks. induction singles as [|m rest IH]; intros ks Hks; simpl.
  - done.
  - destruct (contained m p) eqn:Hc.
    + rewrite (no_s_hd (tl ks)) by by apply no_s_tl.
      destruct (IH (tl (tl ks))) as [H1 H2]; [by do 2 apply no_s_tl|].
      destruct (module_scan p rest (tl (tl ks))) as [l ks'].
      simpl in *. rewrite filter_cons, decide_True by done. by rewrite H1.
    + rewrite filter_cons, decide_False by congruence. by apply IH.
Qed.

(** The panel loop visits a prefix of the panels, and the preview of each
    shows its outline, the contained modules of a prefix of the module
    list, and its contained faults. *)
Lemma panel_scan_lookup (fulls singles : list box) (faults : list (box * Q))
    (ks : list Z) (i : nat) (p : box) (c : canvas) :
  (panel_scan fulls singles faults ks).1 !! i = Some (p, c) ->
  fulls !! i = Some p /\
  exists n : nat,
    c = panel_outline p
          :: (module_outline <$>
                filter (fun m => contained m p = true) (take n singles))
          ++ (faults ≫= fault_draws p).
Proof.
  revert ks i. induction fulls as [|q rest IH]; intros ks i; simpl.
  - done.
  - destruct (module_scan_prefix q singles (tl (tl ks))) as [n Hn].
    destruct (module_scan q singles (tl (tl ks))) as [drawn ks2].
    simpl in Hn. subst drawn.
    destruct (is_s _).
    + destruct i as [|i]; simpl; [|done].
      intros [= <- <-]. eauto.
    + specialize (IH (tl (drop (length (faults_in q faults)) ks2))).
      destruct (panel_scan rest singles faults _) as [l ks'].
      destruct i as [|i]; simpl.
      * intros [= <- <-]. eauto.
      * apply IH.
Qed.

Lemma panel_scan_prefix (fulls singles : list box) (faults : list (box * Q))
    (ks : list Z) :
  exists k : nat, (panel_scan fulls singles faults ks).1.*1 = take k fulls.
Proof.
  revert ks. induction fulls as [|q rest IH]; intros ks; simpl.
  - by exists 0%nat.
  - destruct (module_scan q singles (tl (tl ks))) as [drawn ks2].
    destruct (is_s _).
    + by exists 1%nat.
    + destruct (IH (tl (drop (length (faults_in q faults)) ks2))) as [k Hk].
      destruct (panel_scan rest singles faults _) as [l ks'].
      exists (S k). simpl in *. by f_equal.
Qed.

(** With no [s] among the keys it visits all panels, each in full. *)
Lemma panel_scan_no_s (fulls singles : list box) (faults : list (box * Q))
    (ks : list Z) :
  no_s ks ->
  (panel_scan fulls singles faults ks).1 =
    (fun p => (p, full_preview p singles faults)) <$> fulls.
Proof.
  revert ks. induction fulls as [|q rest IH]; intros ks Hks; simpl.
  - done.
  - destruct (module_scan_no_s q singles (tl (tl ks))) as [H1 H2];
      [by do 2 apply no_s_tl|].
    destruct (module_scan q singles (tl (tl ks))) as [drawn ks2].
    simpl in H1, H2. subst drawn.
    rewrite no_s_hd by by apply no_s_drop.
    specialize (IH (tl (drop (length (faults_in q faults)) ks2))).
    destruct (panel_scan rest singles faults _) as [l ks'].
    simpl in *. rewrite IH; [done|]. by apply no_s_tl, no_s_drop.
Qed.

(** ** What is on the images after the loops *)

Lemma correlate_anomaly {T} (fulls singles faults : list box)
    (probs : list Q) (w : world T) :
  let '(d, w') := correlate fulls singles faults probs w in
  pixels d w' =
    anomaly_draws
      (panel_scan fulls singles (zip faults probs) (keys w)).1.*1
      (zip faults probs).
Proof.
  rewrite correlate_spec. unfold pixels. simpl.
  rewrite lookup_app_r by lia. by rewrite Nat.sub_diag.
Qed.

Lemma correlate_preview {T} (fulls singles faults : list box)
    (probs : list Q) (w : world T) (i : nat) :
  let '(d, w') := correlate fulls singles faults probs w in
  pixels (preview_ref d i) w' =
    default []
      ((panel_scan fulls singles (zip faults probs) (keys w)).1.*2 !! i).
Proof.
  rewrite correlate_spec. unfold pixels, preview_ref. simpl.
  rewrite lookup_app_r by lia.
  replace (S (length (heap w) + i) - length (heap w))%nat with (S i) by lia.
  done.
Qed.

(** ** Membership in what is drawn *)

#[global] Instance module_outline_inj : Inj (=) (=) module_outline.
Proof.
  intros [] []. unfold module_outline, corner1, corner2. simpl. congruence.
Qed.
#[global] Instance panel_filled_inj : Inj (=) (=) panel_filled.
Proof.
  intros [] []. unfold panel_filled, corner1, corner2. simpl. congruence.
Qed.
#[global] Instance fault_outline_inj : Inj (=) (=) fault_outline.
Proof.
  intros [] []. unfold fault_outline, corner1, corner2. simpl. congruence.
Qed.

Lemma elem_of_fault_draws (op : drawop) (p : box) (faults : list (box * Q)) :
  op ∈ faults ≫= fault_draws p <->
  exists f prob, (f, prob) ∈ faults /\ contained f p = true /\
    (op = panel_filled p \/ op = fault_outline f \/ op = fault_text f prob).
Proof.
  rewrite list_elem_of_bind. split.
  - intros ([f prob] & Hop & Hin). exists f, prob.
    unfold fault_draws in Hop. simpl in Hop.
    destruct (contained f p); [|by apply elem_of_nil in Hop].
    rewrite !elem_of_cons, elem_of_nil in Hop. naive_solver.
  - intros (f & prob & Hin & Hc & Hop). exists (f, prob).
    split; [|done]. unfold fault_draws. simpl. rewrite Hc.
    rewrite !elem_of_cons. naive_solver.
Qed.

Lemma elem_of_anomaly_draws (op : drawop) (ps : list box)
    (faults : list (box * Q)) :
  op ∈ anomaly_draws ps faults <->
  exists p f prob, p ∈ ps /\ (f, prob) ∈ faults /\ contained f p = true /\
    (op = panel_filled p \/ op = fault_outline f \/ op = fault_text f prob).
Proof.
  unfold anomaly_draws. rewrite list_elem_of_bind. split.
  - intros (p & Hop & Hp). apply elem_of_fault_draws in Hop.
    naive_solver.
  - intros (p & f & prob & Hp & H). exists p. split; [|done].
    apply elem_of_fault_draws. naive_solver.
Qed.

(** On a preview, blue outlines are modules and modules only. *)
Lemma module_outline_preview (m p : box) (ms : list box)
    (faults : list (box * Q)) :
  module_outline m ∈
    panel_outline p :: (module_outline <$> ms) ++ (faults ≫= fault_draws p)
  <-> m ∈ ms.
Proof.
  rewrite elem_of_cons, elem_of_app, elem_of_fault_draws.
  rewrite (list_elem_of_fmap_inj module_outline). split; [|tauto].
  intros [H|[H|(f & prob & _ & _ & [H|[H|H]])]]; done.
Qed.

(** ... and the outlines in the fault colour are its contained faults. *)
Lemma fault_outline_preview (f p : box) (ms : list box)
    (faults : list (box * Q)) :
  fault_outline f ∈
    panel_outline p :: (module_outline <$> ms) ++ (faults ≫= fault_draws p)
  <-> (exists prob, (f, prob) ∈ faults) /\ contained f p = true.
Proof.
  rewrite elem_of_cons, elem_of_app, elem_of_fault_draws.
  rewrite list_elem_of_fmap. split.
  - intros [H|[(m & H & _)|(f' & prob & Hin & Hc & [H|[H|H]])]]; try done.
    apply (inj fault_outline) in H. subst. eauto.
  - intros [[prob Hin] Hc]. right. right. exists f, prob. eauto.
Qed.

(** What the previews and the anomaly image hold, by panel. *)
Lemma preview_visited {T} (fulls singles faults : list box) (probs : list Q)
    (w : world T) (d : ref) (w' : world T) (i : nat) (p : box) :
  correlate fulls singles faults probs w = (d, w') ->
  fulls !! i = Some p ->
  pixels (preview_ref d i) w' = [] \/
  exists n : nat,
    pixels (preview_ref d i) w' =
      panel_outline p
        :: (module_outline <$>
              filter (fun m => contained m p = true) (take n singles))
        ++ (zip faults probs ≫= fault_draws p).
Proof.
  intros Hrun Hp.
  pose proof (correlate_preview fulls singles faults probs w i) as Hpix.
  rewrite Hrun in Hpix. rewrite Hpix, list_lookup_fmap.
  destruct ((panel_scan fulls singles (zip faults probs) (keys w)).1 !! i)
    as [[q c]|] eqn:Hi; simpl; [|by left].
  apply panel_scan_lookup in Hi as [Hq [n ->]].
  assert (q = p) as -> by congruence. right. by exists n.
Qed.

(** [temp] and [temp2] being one buffer, the preview of a panel shows its
    faults on top of its modules. *)
Lemma preview_full {T} (fulls singles faults : list box) (probs : list Q)
    (w : world T) (d : ref) (w' : world T) (i : nat) (p : box) :
  correlate fulls singles faults probs w = (d, w') ->
  no_s (keys w) ->
  fulls !! i = Some p ->
  pixels (preview_ref d i) w' = full_preview p singles (zip faults probs).
Proof.
  intros Hrun Hks Hp.
  pose proof (correlate_preview fulls singles faults probs w i) as Hpix.
  rewrite Hrun in Hpix. rewrite Hpix, panel_scan_no_s by done.
  rewrite <- list_fmap_compose, list_lookup_fmap, Hp. done.
Qed.

Lemma anomaly_visited {T} (fulls singles faults : list box) (probs : list Q)
    (w : world T) (d : ref) (w' : world T) :
  correlate fulls singles faults probs w = (d, w') ->
  exists k : nat,
    pixels d w' = anomaly_draws (take k fulls) (zip faults probs) /\
    (no_s (keys w) -> take k fulls = fulls).
Proof.
  intros Hrun.
  pose proof (correlate_anomaly fulls singles faults probs w) as Hpix.
  rewrite Hrun in Hpix.
  destruct (panel_scan_prefix fulls singles (zip faults probs) (keys w))
    as [k Hk].
  exists k. split; [by rewrite Hpix, Hk|].
  intros Hks. rewrite <- Hk, panel_scan_no_s by done.
  rewrite <- list_fmap_compose. apply list_fmap_id.
Qed.

(** *** Where the panel loop stops *)

Lemma is_s_hd (ks : list Z) :
  is_s (hd (-1) ks) = true -> exists key, ks = key :: tl ks /\ is_s key = true.
Proof. destruct ks as [|key ks]; [done|]. intros H. by exists key. Qed.

Lemma suffix_tl (ks : list Z) : tl ks `suffix_of` ks.
Proof. destruct ks as [|key ks]; [done|]. by apply suffix_cons_r. Qed.

Lemma module_scan_suffix (p : box) (singles : list box) (ks : list Z) :
  (module_scan p singles ks).2 `suffix_of` ks.
Proof.
  revert ks. induction singles as [|m rest IH]; intros ks; simpl; [done|].
  destruct (contained m p); [|apply IH].
  assert (tl (tl ks) `suffix_of` ks) as Htt
    by (etrans; apply suffix_tl).
  destruct (is_s _); [done|].
  specialize (IH (tl (tl ks))).
  destruct (module_scan p rest (tl (tl ks))) as [l ks']. simpl in *.
  by etrans.
Qed.

(** The loop visits at least the first panel, and it stops before the last
    one only on a key read as [s], the last key it reads. *)
Lemma panel_scan_stop (fulls singles : list box) (faults : list (box * Q))
    (ks : list Z) :
  let r := panel_scan fulls singles faults ks in
  (length r.1 <= length fulls)%nat /\
  (fulls <> [] -> (0 < length r.1)%nat) /\
  ((length r.1 < length fulls)%nat ->
   exists consumed key, ks = consumed ++ key :: r.2 /\ is_s key = true).
Proof.
  revert ks. induction fulls as [|q rest IH]; intros ks; simpl.
  - split; [lia|]. split; [done|lia].
  - pose proof (module_scan_suffix q singles (tl (tl ks))) as Hms.
    destruct (module_scan q singles (tl (tl ks))) as [drawn ks2].
    simpl in Hms.
    set (ks3 := drop (length (faults_in q faults)) ks2).
    assert (ks3 `suffix_of` ks) as [pre Hpre].
    { etrans; [apply suffix_drop|]. etrans; [exact Hms|].
      etrans; apply suffix_tl. }
    destruct (is_s (hd (-1) ks3)) eqn:Hs; simpl.
    + split; [lia|]. split; [lia|]. intros _.
      apply is_s_hd in Hs as (key & Hk & Hs).
      exists pre, key. by rewrite <- Hk.
    + destruct (IH (tl ks3)) as (H1 & _ & H3).
      destruct (panel_scan rest singles faults (tl ks3)) as [l ks'].
      simpl in *. split; [lia|]. split; [lia|]. intros Hlt.
      destruct H3 as (consumed & key & Hc & Hkey); [lia|].
      destruct (suffix_tl ks3) as [pre' Hpre'].
      exists (pre ++ pre' ++ consumed), key. split; [|done].
      rewrite Hpre, Hpre', Hc. by rewrite <- !app_assoc.
Qed.

(** The panels the loop visits are the first [k] of the sorted list:
    all of them when no key is read as [s], and otherwise [s] is the last
    key the loop reads.  The anomaly image holds the calls of exactly these
    panels. *)
Lemma correlate_visited {T} (fulls singles faults : list box)
    (probs : list Q) (w : world T) (d : ref) (w' : world T) :
  correlate fulls singles faults probs w = (d, w') ->
  exists k : nat,
    (k <= length fulls)%nat /\
    (fulls <> [] -> (0 < k)%nat) /\
    (forall i p, fulls !! i = Some p -> (visited d w' i p <-> (i < k)%nat)) /\
    pixels d w' = anomaly_draws (take k fulls) (zip faults probs) /\
    (no_s (keys w) -> k = length fulls) /\
    ((k < length fulls)%nat ->
     exists consumed key,
       keys w = consumed ++ key :: keys w' /\ is_s key = true).
Proof.
  intros Hrun.
  pose proof (correlate_anomaly fulls singles faults probs w) as Hpix.
  pose proof (fun i => correlate_preview fulls singles faults probs w i)
    as Hpre.
  pose proof (correlate_spec fulls singles faults probs w) as Hspec.
  rewrite Hrun in Hpix, Hpre, Hspec.
  assert (keys w' =
            (panel_scan fulls singles (zip faults probs) (keys w)).2) as Hkeys.
  { injection Hspec as _ ->. by destruct w. }
  clear Hspec.
  pose proof (panel_scan_stop fulls singles (zip faults probs) (keys w))
    as (Hle & Hpos & Hstop).
  destruct (panel_scan_prefix fulls singles (zip faults probs) (keys w))
    as [k' Hk'].
  set (l := (panel_scan fulls singles (zip faults probs) (keys w)).1) in *.
  assert (l.*1 = take (length l) fulls) as Hk.
  { rewrite Hk'. rewrite <- (length_fmap fst l), Hk'.
    rewrite length_take.
    destruct (Nat.min_spec k' (length fulls)) as [[? ->]|[? ->]]; [done|].
    by rewrite !take_ge by lia. }
  exists (length l). split; [done|]. split; [done|]. split; [|split; [|split]].
  - intros i p Hp. unfold visited. rewrite Hpre, list_lookup_fmap.
    destruct (l !! i) as [[q c]|] eqn:Hi; simpl.
    + apply lookup_lt_Some in Hi as Hlt.
      apply panel_scan_lookup in Hi as [Hq [n ->]].
      assert (q = p) as -> by congruence.
      split; [done|]. intros _. apply elem_of_cons. by left.
    + apply lookup_ge_None in Hi. rewrite elem_of_nil. lia.
  - by rewrite Hpix, Hk.
  - intros Hks. subst l. rewrite panel_scan_no_s by done.
    by rewrite length_fmap.
  - intros Hlt. rewrite Hkeys. by apply Hstop.
Qed.

(** What the loop draws for a panel it visits is on the anomaly image,
    whatever the keys. *)
Lemma visited_draws {T} (fulls singles faults : list box)
    (probs : list Q) (w : world T) (d : ref) (w' : world T) (i : nat)
    (p f : box) (prob : Q) (op : drawop) :
  correlate fulls singles faults probs w = (d, w') ->
  fulls !! i = Some p -> visited d w' i p ->
  (f, prob) ∈ zip faults probs -> contained f p = true ->
  op = panel_filled p \/ op = fault_outline f \/ op = fault_text f prob ->
  op ∈ pixels d w'.
Proof.
  intros Hrun Hp Hv Hf Hc Hop.
  destruct (correlate_visited _ _ _ _ _ _ _ Hrun)
    as (k & _ & _ & Hvis & Hpix & _).
  apply (Hvis i p Hp) in Hv.
  rewrite Hpix. apply elem_of_anomaly_draws. exists p, f, prob.
  split; [|done]. apply list_elem_of_lookup. exists i.
  by rewrite lookup_take_lt.
Qed.

Lemma py_int_floor (x : Q) : (0 <= x)%Q -> py_int x = Qfloor x.
Proof.
  destruct x as [n d]. unfold Qle, py_int, Qfloor. simpl.
  intros H. apply Z.quot_div_nonneg; lia.
Qed.

(** ** The claims about the loops *)

(** C8.  For a box with [x1 <= x2] and [y1 <= y2], the strict containment
    test applied to the box's own midpoint holds when the box has positive
    width and height, and fails when it is degenerate. *)
Theorem own_midpoint (b : box) :
  bx1 b <= bx2 b -> by1 b <= by2 b ->
  (bx1 b < bx2 b /\ by1 b < by2 b ->
   inside (mid_point_x b) (mid_point_y b) b = true) /\
  (bx1 b = bx2 b \/ by1 b = by2 b ->
   inside (mid_point_x b) (mid_point_y b) b = false).
Proof.
  intros Hx Hy. fold (contained b b). split.
  - intros [H1 H2]. apply contained_true. lia.
  - intros H. destruct (contained b b) eqn:E; [|done].
    apply contained_true in E. lia.
Qed.

Lemma own_midpoint_witness :
  inside (mid_point_x (Box 0 0 10 20)) (mid_point_y (Box 0 0 10 20))
    (Box 0 0 10 20) = true /\
  inside (mid_point_x (Box 5 0 5 20)) (mid_point_y (Box 5 0 5 20))
    (Box 5 0 5 20) = false.
Proof.
  split.
  - apply (own_midpoint (Box 0 0 10 20)); simpl; lia.
  - apply (own_midpoint (Box 5 0 5 20)); simpl; lia.
Defined.

(** C5.  The containment test is the strict interior test
    [x1 < mx < x2 and y1 < my < y2]; a module or fault whose midpoint lies
    on an edge of a panel fails it and is not drawn for that panel. *)
Theorem edge_not_assigned {T} (fulls singles faults : list box)
    (probs : list Q) (w : world T) (d : ref) (w' : world T) (i : nat)
    (p b : box) :
  (forall mx my q, inside mx my q = true <->
     (inject_Z (bx1 q) < mx /\ mx < inject_Z (bx2 q) /\
      inject_Z (by1 q) < my /\ my < inject_Z (by2 q))%Q) /\
  (correlate fulls singles faults probs w = (d, w') ->
   fulls !! i = Some p ->
   on_edge b p ->
   contained b p = false /\
   ~ assigned_module d w' i b /\ ~ assigned_fault d w' i b).
Proof.
  split.
  { intros mx my q. unfold inside. rewrite !andb_true_iff, !Qltb_lt. tauto. }
  intros Hrun Hp Hedge.
  pose proof (on_edge_not_contained b p Hedge) as Hc.
  split; [done|]. unfold assigned_module, assigned_fault.
  destruct (preview_visited _ _ _ _ _ _ _ _ _ Hrun Hp) as [->|[n ->]].
  { split; apply not_elem_of_nil. }
  rewrite module_outline_preview, fault_outline_preview.
  rewrite list_elem_of_filter. split; intros H; destruct H; congruence.
Qed.

Lemma edge_not_assigned_witness :
  let r := correlate [Box 0 0 100 100] [Box 90 40 110 60]
             [Box 90 40 110 60] [1 # 2] (world0 (T:=unit) []) in
  contained (Box 90 40 110 60) (Box 0 0 100 100) = false /\
  ~ assigned_module r.1 r.2 0 (Box 90 40 110 60) /\
  ~ assigned_fault r.1 r.2 0 (Box 90 40 110 60).
Proof.
  intros r.
  assert (Hrun : correlate [Box 0 0 100 100] [Box 90 40 110 60]
                   [Box 90 40 110 60] [1 # 2] (world0 (T:=unit) [])
                 = (r.1, r.2)) by (vm_compute; reflexivity).
  apply (proj2 (edge_not_assigned _ _ _ _ _ _ _ 0 (Box 0 0 100 100)
                  (Box 90 40 110 60)) Hrun).
  - reflexivity.
  - right. left. reflexivity.
Defined.

(** C7, as the code has it.  Every call on the anomaly image belongs to a
    panel with a fault whose midpoint is strictly inside the panel's box,
    so a panel's box is drawn filled only if it has such a fault, and a
    panel without one has nothing drawn for it.  Conversely every panel
    with such a fault that the panel loop visits is drawn filled, whatever
    keys are pressed.  The loop visits the first [k] panels of the sorted
    list: at least one when there is one, and all of them when the
    operator does not press [s]; when it leaves panels unvisited, the last
    key it read is [s], so the key ends the loop after the panel on
    display, which is drawn like every visited panel. *)
Theorem anomaly_filled_iff {T} (fulls singles faults : list box)
    (probs : list Q) (w : world T) (d : ref) (w' : world T) :
  correlate fulls singles faults probs w = (d, w') ->
  (forall op, op ∈ pixels d w' ->
     exists p f prob, p ∈ fulls /\ (f, prob) ∈ zip faults probs /\
       contained f p = true /\
       (op = panel_filled p \/ op = fault_outline f \/
        op = fault_text f prob)) /\
  (forall p, panel_filled p ∈ pixels d w' ->
     exists f prob, (f, prob) ∈ zip faults probs /\ contained f p = true) /\
  (forall i p, fulls !! i = Some p -> visited d w' i p ->
     (exists f prob, (f, prob) ∈ zip faults probs /\
        contained f p = true) ->
     panel_filled p ∈ pixels d w') /\
  (exists k : nat,
     (k <= length fulls)%nat /\
     (fulls <> [] -> (0 < k)%nat) /\
     (forall i p, fulls !! i = Some p ->
        (visited d w' i p <-> (i < k)%nat)) /\
     (no_s (keys w) -> k = length fulls) /\
     ((k < length fulls)%nat ->
      exists consumed key,
        keys w = consumed ++ key :: keys w' /\ is_s key = true)).
Proof.
  intros Hrun.
  destruct (anomaly_visited _ _ _ _ _ _ _ Hrun) as (k & Hk & _).
  assert (Hops : forall op, op ∈ pixels d w' ->
     exists p f prob, p ∈ fulls /\ (f, prob) ∈ zip faults probs /\
       contained f p = true /\
       (op = panel_filled p \/ op = fault_outline f \/
        op = fault_text f prob)).
  { intros op Hop.
    rewrite Hk in Hop. apply elem_of_anomaly_draws in Hop
      as (p & f & prob & Hp & H).
    exists p, f, prob. split; [|done].
    apply elem_of_take in Hp as (j & Hj & _).
    by eapply list_elem_of_lookup_2. }
  split; [done|]. split; [|split].
  - intros p Hin. destruct (Hops _ Hin) as (q & f & prob & _ & Hf & Hc & Hop).
    destruct Hop as [Hop|[Hop|Hop]]; try done.
    apply (inj panel_filled) in Hop. subst. eauto.
  - intros i p Hp Hv (f & prob & Hf & Hc).
    apply (visited_draws _ _ _ _ _ _ _ i p f prob _ Hrun); auto.
  - destruct (correlate_visited _ _ _ _ _ _ _ Hrun)
      as (n & Hle & Hpos & Hvis & _ & Hall & Hstop).
    by exists n.
Qed.

(** The operator presses [s] while the first of two panels is shown: the
    first panel, visited, is drawn filled for its fault. *)
Lemma anomaly_filled_iff_witness :
  let r := correlate [Box 0 0 100 100; Box 200 0 300 100] []
             [Box 40 40 60 60] [1 # 2]
             (world0 (T:=unit) [-1; -1; -1; 115]) in
  panel_filled (Box 0 0 100 100) ∈ pixels r.1 r.2.
Proof.
  intros r.
  assert (Hrun : correlate [Box 0 0 100 100; Box 200 0 300 100] []
                   [Box 40 40 60 60] [1 # 2]
                   (world0 (T:=unit) [-1; -1; -1; 115]) = (r.1, r.2))
    by (vm_compute; reflexivity).
  apply (proj1 (proj2 (proj2 (anomaly_filled_iff _ _ _ _ _ _ _ Hrun)))
           0%nat (Box 0 0 100 100)).
  - reflexivity.
  - unfold visited. by_compute.
  - exists (Box 40 40 60 60), (1 # 2). split.
    + apply list_elem_of_singleton. reflexivity.
    + reflexivity.
Defined.

(** C7 fails: the operator presses [s] while the first of two panels is
    shown; the second panel has a fault inside it and is not drawn. *)
Lemma anomaly_filled_counterexample :
  let fulls := [Box 0 0 100 100; Box 200 0 300 100] in
  let faults := [Box 240 40 260 60] in
  let r := correlate fulls [] faults [1 # 2]
             (world0 (T:=unit) [-1; -1; 115]) in
  py_sort fulls = fulls /\
  pixels r.1 r.2 = [] /\
  ~ (panel_filled (Box 200 0 300 100) ∈ pixels r.1 r.2 <->
     exists f prob, (f, prob) ∈ zip faults [1 # 2]
       /\ contained f (Box 200 0 300 100) = true).
Proof.
  cbv zeta. split; [reflexivity|]. split; [vm_compute; reflexivity|].
  intros [_ H].
  assert (Hin : panel_filled (Box 200 0 300 100) ∈
            pixels (correlate [Box 0 0 100 100; Box 200 0 300 100] []
                      [Box 240 40 260 60] [1 # 2]
                      (world0 (T:=unit) [-1; -1; 115])).1
                   (correlate [Box 0 0 100 100; Box 200 0 300 100] []
                      [Box 240 40 260 60] [1 # 2]
                      (world0 (T:=unit) [-1; -1; 115])).2).
  { apply H. exists (Box 240 40 260 60), (1 # 2). split.
    - apply list_elem_of_singleton. reflexivity.
    - reflexivity. }
  revert Hin. by_compute.
Qed.

(** C1, as the code has it.  There is no tie-break: whatever is outlined
    for a panel has its midpoint strictly inside that panel's box, and in a
    run in which the operator does not press [s] a module or fault is drawn
    for every panel whose box strictly contains its midpoint, so one whose
    midpoint lies inside two overlapping panels is drawn for both. *)
Theorem drawn_for_every_containing_panel {T} (fulls singles faults : list box)
    (probs : list Q) (w : world T) (d : ref) (w' : world T) (i : nat)
    (p : box) :
  correlate fulls singles faults probs w = (d, w') ->
  fulls !! i = Some p ->
  (forall m, assigned_module d w' i m ->
     m ∈ singles /\ contained m p = true) /\
  (forall f, assigned_fault d w' i f ->
     (exists prob, (f, prob) ∈ zip faults probs) /\ contained f p = true) /\
  (no_s (keys w) ->
   (forall m, m ∈ singles -> contained m p = true ->
      assigned_module d w' i m) /\
   (forall f prob, (f, prob) ∈ zip faults probs -> contained f p = true ->
      assigned_fault d w' i f)).
Proof.
  intros Hrun Hp. unfold assigned_module, assigned_fault.
  split; [|split].
  - intros m Hm.
    destruct (preview_visited _ _ _ _ _ _ _ _ _ Hrun Hp) as [E|[n E]];
      rewrite E in Hm; [by apply elem_of_nil in Hm|].
    apply module_outline_preview, list_elem_of_filter in Hm as [Hc Hm].
    split; [|done]. apply elem_of_take in Hm as (j & Hj & _).
    by eapply list_elem_of_lookup_2.
  - intros f Hf.
    destruct (preview_visited _ _ _ _ _ _ _ _ _ Hrun Hp) as [E|[n E]];
      rewrite E in Hf; [by apply elem_of_nil in Hf|].
    by apply fault_outline_preview in Hf.
  - intros Hks.
    rewrite (preview_full _ _ _ _ _ _ _ _ _ Hrun Hks Hp).
    unfold full_preview. split.
    + intros m Hm Hc. apply module_outline_preview, list_elem_of_filter.
      done.
    + intros f prob Hf Hc. apply fault_outline_preview. eauto.
Qed.

Lemma drawn_for_every_containing_panel_witness :
  let r := correlate [Box 0 0 100 100; Box 0 0 200 200] [Box 10 10 20 20]
             [] [] (world0 (T:=unit) []) in
  assigned_module r.1 r.2 0 (Box 10 10 20 20) /\
  assigned_module r.1 r.2 1 (Box 10 10 20 20).
Proof.
  intros r.
  assert (Hrun : correlate [Box 0 0 100 100; Box 0 0 200 200]
                   [Box 10 10 20 20] [] [] (world0 (T:=unit) [])
                 = (r.1, r.2)) by (vm_compute; reflexivity).
  assert (Hks : no_s (keys (world0 (T:=unit) []))) by constructor.
  split.
  - refine (proj1 (proj2 (proj2 (drawn_for_every_containing_panel _ _ _ _ _
              _ _ 0 (Box 0 0 100 100) Hrun eq_refl)) Hks) _ _ _).
    + apply list_elem_of_singleton. reflexivity.
    + reflexivity.
  - refine (proj1 (proj2 (proj2 (drawn_for_every_containing_panel _ _ _ _ _
              _ _ 1 (Box 0 0 200 200) Hrun eq_refl)) Hks) _ _ _).
    + apply list_elem_of_singleton. reflexivity.
    + reflexivity.
Defined.

(** C1 fails: with two overlapping panels, in sorted order, and a module
    and a fault whose midpoints are inside both, the module and the fault
    are drawn for the first panel and again for the second. *)
Lemma first_match_only_counterexample :
  let fulls := [Box 0 0 100 100; Box 0 0 200 200] in
  let m := Box 10 10 20 20 in
  let f := Box 40 40 60 60 in
  let r := correlate fulls [m] [f] [1 # 2] (world0 (T:=unit) []) in
  py_sort fulls = fulls /\
  contained m (Box 0 0 100 100) = true /\
  contained m (Box 0 0 200 200) = true /\
  contained f (Box 0 0 100 100) = true /\
  contained f (Box 0 0 200 200) = true /\
  ~ (forall i j b,
       assigned_module r.1 r.2 i b -> assigned_module r.1 r.2 j b -> i = j) /\
  ~ (forall i j b,
       assigned_fault r.1 r.2 i b -> assigned_fault r.1 r.2 j b -> i = j).
Proof.
  cbv zeta. do 5 (split; [reflexivity|]). split.
  - intros H. specialize (H 0%nat 1%nat (Box 10 10 20 20)).
    assert (0 = 1)%nat; [|done].
    apply H; unfold assigned_module; by_compute.
  - intros H. specialize (H 0%nat 1%nat (Box 40 40 60 60)).
    assert (0 = 1)%nat; [|done].
    apply H; unfold assigned_fault; by_compute.
Qed.

(** C2, as the code has it.  The text put next to a fault on the anomaly
    image is [str(int(score * 10000) / 100) + "%"]: the scaled score is
    truncated, not rounded (for a score that is not negative, to the
    largest integer not above it), and the hundredths are printed without
    a trailing zero.  Every text on the image is such a label of a fault
    inside a panel, placed at [(x1 - 30, y1 - 1)], and every fault inside
    a visited panel gets one, whatever keys are pressed; all panels are
    visited when the operator does not press [s]. *)
Theorem fault_label {T} (fulls singles faults : list box)
    (probs : list Q) (w : world T) (d : ref) (w' : world T) :
  correlate fulls singles faults probs w = (d, w') ->
  (forall text org fs c th, PutText text org fs c th ∈ pixels d w' ->
     exists p f prob, p ∈ fulls /\ (f, prob) ∈ zip faults probs /\
       contained f p = true /\
       text = str_div100 (py_int (prob * 10000)) +:+ "%" /\
       org = (bx1 f - 30, by1 f - 1)) /\
  (forall i p f prob, fulls !! i = Some p -> visited d w' i p ->
     (f, prob) ∈ zip faults probs -> contained f p = true ->
     PutText (str_div100 (py_int (prob * 10000)) +:+ "%")
       (bx1 f - 30, by1 f - 1) 1 (255, 0, 0) 2 ∈ pixels d w') /\
  (no_s (keys w) -> forall i p, fulls !! i = Some p -> visited d w' i p) /\
  (forall prob : Q, (0 <= prob)%Q ->
     py_int (prob * 10000) = Qfloor (prob * 10000) /\
     (inject_Z (py_int (prob * 10000)) <= prob * 10000
        < inject_Z (py_int (prob * 10000) + 1))%Q).
Proof.
  intros Hrun.
  destruct (anomaly_visited _ _ _ _ _ _ _ Hrun) as (k & Hk & _).
  split; [|split; [|split]].
  - intros text org fs c th Hin.
    rewrite Hk in Hin. apply elem_of_anomaly_draws in Hin
      as (p & f & prob & Hp & Hf & Hc & Hop).
    exists p, f, prob.
    apply elem_of_take in Hp as (j & Hj & _).
    apply list_elem_of_lookup_2 in Hj.
    destruct Hop as [Hop|[Hop|Hop]]; try done.
    unfold fault_text, percent_label in Hop. by injection Hop as -> -> _ _ _.
  - intros i p f prob Hp Hv Hf Hc.
    apply (visited_draws _ _ _ _ _ _ _ i p f prob _ Hrun); auto.
  - intros Hks i p Hp.
    destruct (correlate_visited _ _ _ _ _ _ _ Hrun)
      as (n & _ & _ & Hvis & _ & Hall & _).
    apply (Hvis i p Hp). rewrite (Hall Hks).
    by apply lookup_lt_Some in Hp.
  - intros prob Hprob.
    assert (0 <= prob * 10000)%Q as H0.
    { apply Qmult_le_0_compat; [done|]. by unfold Qle. }
    rewrite (py_int_floor _ H0). split; [done|]. split.
    + apply Qfloor_le.
    + apply Qlt_floor.
Qed.

(** The operator presses [s] while the first of two panels is shown: the
    fault inside it has its label. *)
Lemma fault_label_witness :
  let r := correlate [Box 0 0 100 100; Box 200 0 300 100] []
             [Box 40 40 60 60] [3 # 64]
             (world0 (T:=unit) [-1; -1; -1; 115]) in
  PutText "4.68%" (10, 39) 1 (255, 0, 0) 2 ∈ pixels r.1 r.2.
Proof.
  intros r.
  assert (Hrun : correlate [Box 0 0 100 100; Box 200 0 300 100] []
                   [Box 40 40 60 60] [3 # 64]
                   (world0 (T:=unit) [-1; -1; -1; 115]) = (r.1, r.2))
    by (vm_compute; reflexivity).
  apply (proj1 (proj2 (fault_label _ _ _ _ _ _ _ Hrun))
           0%nat (Box 0 0 100 100) (Box 40 40 60 60) (3 # 64)).
  - reflexivity.
  - unfold visited. by_compute.
  - apply list_elem_of_singleton. reflexivity.
  - reflexivity.
Defined.

(** C2 fails: for the score 0.046875 the scaled score is 468.75; the
    program prints its truncation, 4.68%, where rounding to the nearest
    integer gives 4.69%; and for the score 0.5 it prints 50.0%, with one
    decimal. *)
Lemma rounded_label_counterexample :
  let r (score : Q) :=
    correlate [Box 0 0 100 100] [] [Box 40 40 60 60] [score]
      (world0 (T:=unit) []) in
  contained (Box 40 40 60 60) (Box 0 0 100 100) = true /\
  spec_percent_label (3 # 64) = "4.69%" /\
  pixels (r (3 # 64)).1 (r (3 # 64)).2 =
    [panel_filled (Box 0 0 100 100); fault_outline (Box 40 40 60 60);
     PutText "4.68%" (10, 39) 1 (255, 0, 0) 2] /\
  spec_percent_label (1 # 2) = "50.00%" /\
  pixels (r (1 # 2)).1 (r (1 # 2)).2 =
    [panel_filled (Box 0 0 100 100); fault_outline (Box 40 40 60 60);
     PutText "50.0%" (10, 39) 1 (255, 0, 0) 2].
Proof. cbv zeta. repeat split; vm_compute; reflexivity. Qed.

(** ** The frame *)

(** Where the buffers of the three passes and of the loops lie in the
    store. *)
Lemma heap_lookup_1 (h p1 p2 p3 rest t : list canvas) (c : canvas) :
  p1 = c :: t ->
  ((((h ++ p1) ++ p2) ++ p3) ++ rest) !! length h = Some c.
Proof.
  intros ->. rewrite <- !app_assoc. simpl. by apply list_lookup_middle.
Qed.

Lemma heap_lookup_3 (h p1 p2 p3 rest t : list canvas) (c : canvas) :
  p3 = c :: t ->
  ((((h ++ p1) ++ p2) ++ p3) ++ rest) !! length ((h ++ p1) ++ p2) = Some c.
Proof.
  intros ->. rewrite <- !(app_assoc ((h ++ p1) ++ p2)). simpl.
  by apply list_lookup_middle.
Qed.

(** Reading the fields of a state that has just been written. *)
Ltac world_simpl :=
  unfold set_heap, set_keys, set_disk, set_calls;
  cbn [heap keys disk calls fst snd].

Section Frame.
Context {tensor raw : Type} `{!Externals tensor raw}.
Implicit Types (a : args) (fr : frame tensor) (w : world tensor).

Lemma write_results_spec a fr (r0 : ref) (rows : list row)
    (pred : list box) (prob : list Q) w :
  write_results a fr r0 rows pred prob w =
    ((pred ++ (row_box fr <$> rows), prob ++ (r_conf <$> rows)),
     set_disk (rows_disk a fr rows (disk w))
       (set_heap (paint r0 (box_labels a fr rows) (heap w)) w)).
Proof.
  revert pred prob w.
  induction rows as [|r rest IH]; intros pred prob [h ks dk cl].
  - simpl. unfold box_labels. rewrite !app_nil_r.
    destruct (draws_boxes a); simpl; by rewrite paint_nil.
  - simpl. unfold box_labels, rows_disk, row_disk, draws_boxes in *.
    destruct (save_txt a), (save_img a || save_crop a || view_img a) eqn:Hd,
      (save_crop a); run_step; rewrite IH; simpl;
      rewrite <- ?app_assoc, ?paint_one, ?paint_paint; done.
Qed.

Lemma process_spec a fr (det : list row) w :
  process a fr det w =
    ((length (heap w), row_box fr <$> reverse det, r_conf <$> reverse det),
     set_disk (rows_disk a fr (reverse det) (disk w))
       (set_heap (heap w ++ pass_buffers a fr det) w)).
Proof.
  destruct w as [h ks dk cl]. unfold process, pass_buffers.
  destruct (save_crop a) eqn:Hc; run_step; rewrite write_results_spec; simpl.
  - rewrite paint_app_l by (rewrite length_app; simpl; lia).
    rewrite paint_new. by rewrite <- app_assoc.
  - by rewrite paint_new.
Qed.

Lemma length_pass_buffers a fr (det : list row) :
  (0 < length (pass_buffers a fr det))%nat.
Proof. unfold pass_buffers. simpl. lia. Qed.

Lemma save_results_spec a fr (r1 r0 rd : ref) w :
  save_results a fr r1 r0 rd w =
    (tt, set_disk
           (if save_img a then
              <[f_base fr +:+ "_anomaly_detection" +:+ f_ext fr :=
                  ImageFile (pixels rd w)]>
                (<[f_base fr +:+ "_panel_block_detection" +:+ f_ext fr :=
                     ImageFile (pixels r0 w)]>
                   (<[f_base fr +:+ "_panel_detection" +:+ f_ext fr :=
                        ImageFile (pixels r1 w)]> (disk w)))
            else disk w) w).
Proof.
  destruct w as [h ks dk cl]. unfold save_results.
  destruct (save_img a); [|done]. done.
Qed.

(** The frame body computes its closed form, whichever number of calls to
    the module detector it makes. *)
Lemma run_frame_spec a fr w :
  run_frame a fr w =
    frame_closed [PanelModel; FaultModel; SingleModel; SingleModel] a fr w.
Proof.
  destruct w as [h ks dk cl]. unfold run_frame, frame_closed.
  unfold frame_anomaly, frame_visited, frame_keys.
  unfold mbind, M_bind, bind, call_model. world_simpl.
  fold (dets_panel a fr) (dets_fault a fr) (dets_single a fr).
  rewrite process_spec. world_simpl.
  destruct (view_img a) eqn:Hv; unfold waitKey, mret, M_ret, ret; world_simpl;
    rewrite process_spec; world_simpl; rewrite process_spec; world_simpl;
    fold (frame_fulls a fr) (frame_singles a fr) (frame_faults a fr);
    rewrite correlate_spec; world_simpl; rewrite save_results_spec;
    world_simpl.
  all: unfold pixels; cbn [heap].
  all: erewrite heap_lookup_1 by reflexivity.
  all: erewrite heap_lookup_3 by reflexivity.
  all: rewrite list_lookup_middle by reflexivity.
  all: rewrite <- !(app_assoc cl); reflexivity.
Qed.

Lemma run_frame_single_call_spec a fr w :
  run_frame_single_call a fr w =
    frame_closed [PanelModel; FaultModel; SingleModel] a fr w.
Proof.
  destruct w as [h ks dk cl]. unfold run_frame_single_call, frame_closed.
  unfold frame_anomaly, frame_visited, frame_keys.
  unfold mbind, M_bind, bind, call_model. world_simpl.
  fold (dets_panel a fr) (dets_fault a fr) (dets_single a fr).
  rewrite process_spec. world_simpl.
  destruct (view_img a) eqn:Hv; unfold waitKey, mret, M_ret, ret; world_simpl;
    rewrite process_spec; world_simpl; rewrite process_spec; world_simpl;
    fold (frame_fulls a fr) (frame_singles a fr) (frame_faults a fr);
    rewrite correlate_spec; world_simpl; rewrite save_results_spec;
    world_simpl.
  all: unfold pixels; cbn [heap].
  all: erewrite heap_lookup_1 by reflexivity.
  all: erewrite heap_lookup_3 by reflexivity.
  all: rewrite list_lookup_middle by reflexivity.
  all: rewrite <- !(app_assoc cl); reflexivity.
Qed.

(** The closed form reads the state only through the store, the keys and
    the files. *)
Lemma frame_closed_agree (cs cs' : list detector) a fr w w' :
  same_but_calls w w' ->
  (frame_closed cs a fr w).1 = (frame_closed cs' a fr w').1 /\
  same_but_calls (frame_closed cs a fr w).2 (frame_closed cs' a fr w').2.
Proof.
  destruct w as [h ks dk cl], w' as [h' ks' dk' cl'].
  unfold same_but_calls. simpl. intros (-> & -> & ->). done.
Qed.

Lemma frames_agree a (dataset : list (frame tensor)) w w' :
  same_but_calls w w' ->
  (frames run_frame a dataset w).1
    = (frames run_frame_single_call a dataset w').1 /\
  same_but_calls (frames run_frame a dataset w).2
    (frames run_frame_single_call a dataset w').2.
Proof.
  revert w w'. induction dataset as [|fr rest IH]; intros w w' Hw.
  - done.
  - simpl. unfold mbind, M_bind, bind.
    rewrite run_frame_spec, run_frame_single_call_spec.
    destruct (frame_closed_agree
                [PanelModel; FaultModel; SingleModel; SingleModel]
                [PanelModel; FaultModel; SingleModel] a fr w w' Hw)
      as [Ho Hw1].
    destruct (frame_closed _ a fr w) as [o w1].
    destruct (frame_closed _ a fr w') as [o' w1'].
    simpl in Ho, Hw1. subst o'.
    destruct (IH w1 w1' Hw1) as [Hos Hw2].
    destruct (frames run_frame a rest w1) as [os w2].
    destruct (frames run_frame_single_call a rest w1') as [os' w2'].
    simpl in *. by subst.
Qed.

Lemma string_app_inv_l (s a b : string) : s +:+ a = s +:+ b -> a = b.
Proof. induction s as [|c s IH]; simpl; [done|]. intros [=]. auto. Qed.

Lemma block_name_ne_anomaly (base ext : string) :
  base +:+ "_anomaly_detection" +:+ ext
    <> base +:+ "_panel_block_detection" +:+ ext.
Proof. intros H. apply string_app_inv_l in H. discriminate H. Qed.

Lemma panel_name_ne_anomaly (base ext : string) :
  base +:+ "_anomaly_detection" +:+ ext
    <> base +:+ "_panel_detection" +:+ ext.
Proof. intros H. apply string_app_inv_l in H. discriminate H. Qed.

Lemma panel_name_ne_block (base ext : string) :
  base +:+ "_panel_block_detection" +:+ ext
    <> base +:+ "_panel_detection" +:+ ext.
Proof. intros H. apply string_app_inv_l in H. discriminate H. Qed.

(** The three saved images, read back from the final store. *)
Lemma frame_closed_pixels (cs : list detector) a fr w :
  let r := frame_closed cs a fr w in
  pixels (im1 r.1) r.2 = box_labels a fr (reverse (dets_panel a fr)) /\
  pixels (im0 r.1) r.2 = box_labels a fr (reverse (dets_single a fr)) /\
  pixels (img_detection r.1) r.2 = frame_anomaly a fr (keys w).
Proof.
  unfold frame_closed, pixels. cbn [fst snd heap im1 im0 img_detection].
  erewrite heap_lookup_1 by reflexivity.
  erewrite heap_lookup_3 by reflexivity.
  rewrite list_lookup_middle by reflexivity. done.
Qed.

Lemma frame_closed_refs (cs : list detector) a fr w :
  let r := frame_closed cs a fr w in
  (length (heap w) <= im1 r.1 < im0 r.1)%nat /\
  (im0 r.1 < img_detection r.1 < length (heap r.2))%nat.
Proof.
  unfold frame_closed. cbn [fst snd heap im1 im0 img_detection].
  rewrite !length_app. simpl.
  pose proof (length_pass_buffers a fr (dets_panel a fr)).
  pose proof (length_pass_buffers a fr (dets_fault a fr)).
  pose proof (length_pass_buffers a fr (dets_single a fr)).
  lia.
Qed.

(** With [save_img] the three images are on disk under their three
    names. *)
Lemma frame_closed_files (cs : list detector) a fr w :
  save_img a = true ->
  let r := frame_closed cs a fr w in
  disk r.2 !! (f_base fr +:+ "_panel_detection" +:+ f_ext fr)
    = Some (ImageFile (pixels (im1 r.1) r.2)) /\
  disk r.2 !! (f_base fr +:+ "_panel_block_detection" +:+ f_ext fr)
    = Some (ImageFile (pixels (im0 r.1) r.2)) /\
  disk r.2 !! (f_base fr +:+ "_anomaly_detection" +:+ f_ext fr)
    = Some (ImageFile (pixels (img_detection r.1) r.2)).
Proof.
  intros Hs r. destruct (frame_closed_pixels cs a fr w) as (H1 & H0 & Hd).
  fold r in H1, H0, Hd. rewrite H1, H0, Hd.
  subst r. unfold frame_closed. cbn [snd disk]. rewrite Hs.
  split; [|split].
  - rewrite lookup_insert_ne by apply panel_name_ne_anomaly.
    rewrite lookup_insert_ne by apply panel_name_ne_block.
    by rewrite lookup_insert_eq.
  - rewrite lookup_insert_ne by apply block_name_ne_anomaly.
    by rewrite lookup_insert_eq.
  - by rewrite lookup_insert_eq.
Qed.
End Frame.

(** ** The claims about the frame *)

Section FrameClaims.
Context {tensor raw : Type} `{!Externals tensor raw}.
Implicit Types (a : args) (fr : frame tensor) (w : world tensor).

(** C3, as the code has it.  The image saved with the
    [_panel_block_detection] suffix is the annotated copy of the module
    pass: when images are saved it shows the box of every module
    detection, whether or not the module's midpoint is inside a panel, and
    nothing else.  Containment only decides what the on-screen preview of
    a panel shows. *)
Theorem module_layer_all_modules a fr w :
  save_img a = true ->
  let r := run_frame a fr w in
  disk r.2 !! (f_base fr +:+ "_panel_block_detection" +:+ f_ext fr)
    = Some (ImageFile (pixels (im0 r.1) r.2)) /\
  pixels (im0 r.1) r.2 = box_label_of fr <$> reverse (dets_single a fr) /\
  (forall b, b ∈ pred_single_solar_modules r.1 ->
     exists label c, BoxLabel b label c ∈ pixels (im0 r.1) r.2).
Proof.
  intros Hs r. subst r. rewrite run_frame_spec.
  destruct (frame_closed_pixels
              [PanelModel; FaultModel; SingleModel; SingleModel] a fr w)
    as (_ & H0 & _).
  destruct (frame_closed_files
              [PanelModel; FaultModel; SingleModel; SingleModel] a fr w Hs)
    as (_ & Hfile & _).
  set (r := frame_closed _ a fr w) in *. rewrite H0.
  assert (Hl : box_labels a fr (reverse (dets_single a fr))
               = box_label_of fr <$> reverse (dets_single a fr)).
  { unfold box_labels, draws_boxes. by rewrite Hs. }
  split; [|split].
  - by rewrite <- H0.
  - done.
  - intros b Hb. subst r. unfold frame_closed in Hb.
    cbn [fst pred_single_solar_modules] in Hb. unfold frame_singles in Hb.
    apply py_sort_elem_of, list_elem_of_fmap in Hb as (x & -> & Hx).
    exists (conf_label (r_conf x)), (colors (r_cls x)).
    rewrite Hl. apply list_elem_of_fmap. by exists x.
Qed.

(** C4, as the code has it.  Before the loops the panel list and the
    module list are sorted in ascending lexicographic order of the box,
    equal boxes keeping their order; the fault list is not sorted: it
    stays in the reverse of the order of the detector's rows, entry by
    entry in step with the list of fault scores. *)
Theorem lists_sorted_except_faults a fr w :
  let o := (run_frame a fr w).1 in
  (Sorted box_le (pred_full_solar_modules o) /\
   pred_full_solar_modules o ≡ₚ row_box fr <$> reverse (dets_panel a fr) /\
   forall k, filter (fun b => b = k) (pred_full_solar_modules o)
     = filter (fun b => b = k) (row_box fr <$> reverse (dets_panel a fr))) /\
  (Sorted box_le (pred_single_solar_modules o) /\
   pred_single_solar_modules o ≡ₚ row_box fr <$> reverse (dets_single a fr) /\
   forall k, filter (fun b => b = k) (pred_single_solar_modules o)
     = filter (fun b => b = k) (row_box fr <$> reverse (dets_single a fr))) /\
  pred_fault_solar_modules o = row_box fr <$> reverse (dets_fault a fr) /\
  prob_fault_solar_modules o = r_conf <$> reverse (dets_fault a fr).
Proof.
  intros o. subst o. rewrite run_frame_spec. unfold frame_closed.
  cbn [fst pred_full_solar_modules pred_single_solar_modules
       pred_fault_solar_modules prob_fault_solar_modules].
  unfold frame_fulls, frame_singles.
  repeat split; auto using py_sort_sorted, py_sort_perm, py_sort_stable.
Qed.

(** The three saved images are three different, freshly created buffers,
    each a copy of the source raster; at the end of the frame each holds
    the calls of its own layer only, and a drawing call on the module
    image, on the anomaly image or on the preview of a panel leaves the
    other images as they were.  The two names of a panel's preview are
    another matter: they are one buffer. *)
Theorem layers_independent a fr w (op : drawop) (i : nat) :
  let r := run_frame a fr w in
  let '(p, m, d) := (im1 r.1, im0 r.1, img_detection r.1) in
  (length (heap w) <= p < m)%nat /\ (m < d < length (heap r.2))%nat /\
  pixels p r.2 = box_labels a fr (reverse (dets_panel a fr)) /\
  pixels m r.2 = box_labels a fr (reverse (dets_single a fr)) /\
  pixels d r.2 = frame_anomaly a fr (keys w) /\
  (pixels m (draw m op r.2).2 = pixels m r.2 ++ [op] /\
   pixels d (draw m op r.2).2 = pixels d r.2 /\
   pixels p (draw m op r.2).2 = pixels p r.2) /\
  (pixels d (draw d op r.2).2 = pixels d r.2 ++ [op] /\
   pixels m (draw d op r.2).2 = pixels m r.2 /\
   pixels p (draw d op r.2).2 = pixels p r.2) /\
  (pixels d (draw (preview_ref d i) op r.2).2 = pixels d r.2 /\
   pixels m (draw (preview_ref d i) op r.2).2 = pixels m r.2 /\
   pixels p (draw (preview_ref d i) op r.2).2 = pixels p r.2 /\
   pixels (preview_ref d i) (draw d op r.2).2
     = pixels (preview_ref d i) r.2 /\
   pixels (preview_ref d i) (draw m op r.2).2
     = pixels (preview_ref d i) r.2).
Proof.
  intros r. subst r. rewrite run_frame_spec.
  pose proof (frame_closed_pixels
                [PanelModel; FaultModel; SingleModel; SingleModel] a fr w)
    as (H1 & H0 & Hd).
  pose proof (frame_closed_refs
                [PanelModel; FaultModel; SingleModel; SingleModel] a fr w)
    as (R1 & R2).
  set (r := frame_closed _ a fr w) in *. cbv zeta in *.
  unfold preview_ref.
  repeat split; try done; try lia;
    try (apply draw_self; lia); apply draw_frame; lia.
Qed.

(** C9.  Two runs whose arguments differ only in [conf_thres] and
    [iou_thres] get the same fault and module detections: non-max
    suppression is applied to the fault detector's and to the module
    detector's output with the constant thresholds 0.01 and 0.01, whatever
    the caller passed; the caller's thresholds reach the panel pass
    only. *)
Theorem thresholds_reach_panel_pass_only a a' fr w w' :
  same_but_thresholds a a' ->
  let o := (run_frame a fr w).1 in
  let o' := (run_frame a' fr w').1 in
  (pred_fault_solar_modules o = pred_fault_solar_modules o' /\
   prob_fault_solar_modules o = prob_fault_solar_modules o' /\
   pred_single_solar_modules o = pred_single_solar_modules o' /\
   prob_single_solar_modules o = prob_single_solar_modules o') /\
  (dets_fault a fr = dets_fault a' fr /\
   dets_single a fr = dets_single a' fr) /\
  (pred_fault_solar_modules o =
     row_box fr <$> reverse
       (non_max_suppression
          (model_fault (f_im fr) (augment a) (visualize a))
          (1 # 100) (1 # 100) None false (max_det a)) /\
   pred_single_solar_modules o =
     py_sort (row_box fr <$> reverse
       (non_max_suppression
          (model_single (f_im fr) (augment a) (visualize a))
          (1 # 100) (1 # 100) None false (max_det a))) /\
   pred_full_solar_modules o =
     py_sort (row_box fr <$> reverse
       (non_max_suppression
          (model (f_im fr) (augment a) (visualize a))
          (conf_thres a) (iou_thres a) (classes a) (agnostic_nms a)
          (max_det a)))).
Proof.
  intros Ha o o'. subst o o'. rewrite !run_frame_spec. unfold frame_closed.
  cbn [fst pred_full_solar_modules pred_single_solar_modules
       pred_fault_solar_modules prob_fault_solar_modules
       prob_single_solar_modules].
  assert (Hf : dets_fault a fr = dets_fault a' fr).
  { unfold dets_fault. rewrite Ha. done. }
  assert (Hm : dets_single a fr = dets_single a' fr).
  { unfold dets_single. rewrite Ha. done. }
  unfold frame_singles, frame_fulls. rewrite <- Hf, <- Hm. done.
Qed.

(** C10.  The frame body calls the module detector twice in a row on the
    same tensor, and only the second result is used: the body with the
    first call removed leaves the same lists, the same images, the same
    keys and the same files, and [run] returns the same value; the record
    of detector calls is all that differs. *)
Theorem second_call_redundant a fr w (dataset : list (frame tensor)) :
  let r := run_frame a fr w in
  let r' := run_frame_single_call a fr w in
  r.1 = r'.1 /\
  heap r.2 = heap r'.2 /\ keys r.2 = keys r'.2 /\ disk r.2 = disk r'.2 /\
  calls r.2 = calls w ++ [(PanelModel, f_im fr); (FaultModel, f_im fr);
                          (SingleModel, f_im fr); (SingleModel, f_im fr)] /\
  calls r'.2 = calls w ++ [(PanelModel, f_im fr); (FaultModel, f_im fr);
                           (SingleModel, f_im fr)] /\
  (run a dataset w).1 = (run_single_call a dataset w).1.
Proof.
  intros r r'. subst r r'.
  rewrite run_frame_spec, run_frame_single_call_spec.
  repeat split; try done.
  unfold run, run_single_call, run_with, mbind, M_bind, bind, read_disk,
    mret, M_ret, ret.
  assert (Hw : same_but_calls w w) by done.
  destruct (frames_agree a dataset w w Hw) as [_ (_ & _ & Hd)].
  destruct (frames run_frame a dataset w) as [os w1].
  destruct (frames run_frame_single_call a dataset w) as [os' w1'].
  simpl in *. by rewrite Hd.
Qed.

End FrameClaims.

(** ** The claims on the small instance *)

Lemma module_layer_all_modules_witness :
  let r := run_frame (toy_args false)
             (toy_frame [] [] [toy_row 10 10 20 20 (9 # 10)]) (world0 []) in
  disk r.2 !! "a_panel_block_detection.jpg"
    = Some (ImageFile (pixels (im0 r.1) r.2)) /\
  pixels (im0 r.1) r.2 = [BoxLabel (Box 10 10 20 20) "" (0, 0, 255)].
Proof.
  intros r.
  destruct (module_layer_all_modules (toy_args false)
              (toy_frame [] [] [toy_row 10 10 20 20 (9 # 10)]) (world0 [])
              eq_refl) as (H1 & H2 & _).
  split; [exact H1|]. etransitivity; [exact H2|]. vm_compute. reflexivity.
Defined.

(** C3 fails: a module whose midpoint is outside the only panel is still
    drawn on the saved module image. *)
Lemma module_layer_counterexample :
  let m := Box 200 200 220 220 in
  let r := run_frame (toy_args false)
             (toy_frame [toy_row 0 0 100 100 (9 # 10)] []
                [toy_row 200 200 220 220 (9 # 10)]) (world0 []) in
  pred_full_solar_modules r.1 = [Box 0 0 100 100] /\
  pred_single_solar_modules r.1 = [m] /\
  contained m (Box 0 0 100 100) = false /\
  disk r.2 !! "a_panel_block_detection.jpg"
    = Some (ImageFile [BoxLabel m "" (0, 0, 255)]).
Proof. cbv zeta. repeat split; vm_compute; reflexivity. Qed.

(** C4 fails: the fault list of a frame with two faults is left in the
    reverse of the detector's order, which is not ascending. *)
Lemma fault_list_counterexample :
  let r := run_frame (toy_args false)
             (toy_frame [] [toy_row 0 0 10 10 (9 # 10);
                            toy_row 50 50 60 60 (8 # 10)] []) (world0 []) in
  pred_fault_solar_modules r.1 = [Box 50 50 60 60; Box 0 0 10 10] /\
  ~ Sorted box_le (pred_fault_solar_modules r.1).
Proof.
  cbv zeta. split; [vm_compute; reflexivity|].
  apply (bool_decide_eq_false_1 _). vm_compute. reflexivity.
Qed.

(** C6 fails on the previews.  Line 315 binds [temp] and [temp2] to the one
    array read at line 314, without the copy that line 311 makes for the
    anomaly image.  For a frame with one panel, one module and one fault
    inside it, the buffer on which the panel and the module were outlined
    (lines 320 and 327, through [temp]) ends with the filled panel, the
    outline of the fault and its label as well (lines 337, 338 and 348,
    through [temp2]): drawing the fault layer changed the module preview.
    The anomaly image, a copy, holds the calls of the fault layer only and
    no module outline, and the saved module image the module only. *)
Theorem previews_share_one_buffer :
  let panel := Box 0 0 100 100 in
  let module := Box 10 10 20 20 in
  let fault := Box 40 40 60 60 in
  let fr := toy_frame [toy_row 0 0 100 100 (9 # 10)]
              [toy_row 40 40 60 60 (1 # 2)]
              [toy_row 10 10 20 20 (9 # 10)] in
  let r := run_frame (toy_args false) fr (world0 []) in
  pixels (preview_ref (img_detection r.1) 0) r.2 =
    [panel_outline panel; module_outline module;
     panel_filled panel; fault_outline fault; fault_text fault (1 # 2)] /\
  pixels (img_detection r.1) r.2 =
    [panel_filled panel; fault_outline fault; fault_text fault (1 # 2)] /\
  pixels (im0 r.1) r.2 = [box_label_of fr (toy_row 10 10 20 20 (9 # 10))] /\
  (forall m : box, module_outline m ∉ pixels (img_detection r.1) r.2).
Proof.
  cbv zeta. split; [vm_compute; reflexivity|].
  split; [vm_compute; reflexivity|]. split; [vm_compute; reflexivity|].
  intros m Hm.
  assert (pixels
            (img_detection
               (run_frame (toy_args false)
                  (toy_frame [toy_row 0 0 100 100 (9 # 10)]
                     [toy_row 40 40 60 60 (1 # 2)]
                     [toy_row 10 10 20 20 (9 # 10)]) (world0 [])).1)
            (run_frame (toy_args false)
               (toy_frame [toy_row 0 0 100 100 (9 # 10)]
                  [toy_row 40 40 60 60 (1 # 2)]
                  [toy_row 10 10 20 20 (9 # 10)]) (world0 [])).2
          = [panel_filled (Box 0 0 100 100);
             fault_outline (Box 40 40 60 60);
             fault_text (Box 40 40 60 60) (1 # 2)]) as Hpix
    by (vm_compute; reflexivity).
  rewrite Hpix in Hm. rewrite !elem_of_cons, elem_of_nil in Hm.
  destruct Hm as [Hm|[Hm|[Hm|[]]]]; discriminate Hm.
Qed.

Lemma thresholds_reach_panel_pass_only_witness :
  let fr := toy_frame [toy_row 0 0 100 100 (1 # 2)]
              [toy_row 40 40 60 60 (1 # 50)] [toy_row 10 10 20 20 (1 # 50)] in
  let a := toy_args false in
  let a' := Args (3 # 4) (1 # 10) 1000 false false false false false None
              false false false in
  let o := (run_frame a fr (world0 [])).1 in
  let o' := (run_frame a' fr (world0 [])).1 in
  pred_full_solar_modules o = [Box 0 0 100 100] /\
  pred_full_solar_modules o' = [] /\
  pred_fault_solar_modules o = pred_fault_solar_modules o' /\
  pred_single_solar_modules o = pred_single_solar_modules o'.
Proof.
  intros fr a a' o o'.
  destruct (thresholds_reach_panel_pass_only a a' fr (world0 []) (world0 [])
              eq_refl) as ((H1 & _ & H2 & _) & _).
  split; [vm_compute; reflexivity|]. split; [vm_compute; reflexivity|].
  split; [exact H1|exact H2].
Defined.

(** * Part IV: further properties of the code *)

(** ** [run_detection], [main] and [parse_opt] *)

Section CallFacts.
Context {V R : Type}.
Variable to_int : V -> exn + Z.
Variable tuple2 : Z -> Z -> V.
Variable run_kw : dict V -> R.

Local Abbreviation run_detection :=
  (RunDetection.run_detection to_int tuple2 run_kw).
Local Abbreviation call_run := (RunDetection.call_run run_kw).

Lemma call_run_ok (kwargs : dict V) :
  Forall (fun kv => kv.1 ∈ run_params) kwargs ->
  call_run kwargs = inr (run_kw kwargs).
Proof.
  intros H. unfold RunDetection.call_run.
  assert (filter (fun kv : string * V => kv.1 ∉ run_params) kwargs = [])
    as ->; [|done].
  induction H as [|kv l Hkv _ IH]; [done|].
  rewrite filter_cons, decide_False by tauto. done.
Qed.

(** Only the first 28 positional arguments of [run_detection] count: [zip]
    stops at the shorter list. *)
Theorem run_detection_ignores_extra_args (args : list V) :
  run_detection args = run_detection (take 28 args).
Proof.
  unfold RunDetection.run_detection.
  assert (zip RunDetection.keys (take 28 args) = zip RunDetection.keys args)
    as ->; [|done].
  change 28%nat with (length RunDetection.keys).
  apply zip_with_take_r.
Qed.

(** With fewer than five arguments [run_detection] never reaches [run]: up
    to three arguments give [KeyError] for ['img_height']; four give the
    exception of [int] on the height if it raises one and otherwise
    [KeyError] for ['img_width']. *)
Theorem run_detection_too_few_args (args : list V) :
  ((length args < 4)%nat ->
   run_detection args = inl (KeyError "img_height")) /\
  (length args = 4%nat ->
   exists hv, args !! 3%nat = Some hv /\
     run_detection args =
       match to_int hv with
       | inl e => inl e
       | inr _ => inl (KeyError "img_width")
       end).
Proof.
  split.
  - intros Hlen.
    destruct args as [|a0 [|a1 [|a2 [|a3 args]]]]; simpl in Hlen; try lia;
      vm_compute; reflexivity.
  - intros Hlen.
    destruct args as [|a0 [|a1 [|a2 [|a3 [|a4 args]]]]]; simpl in Hlen;
      try lia.
    exists a3. split; [done|].
    unfold RunDetection.run_detection. simpl.
    change (dict_get "img_height" _) with (@inr exn V a3).
    cbn [mbind exn_bind]. destruct (to_int a3) as [e|h]; [done|].
    vm_compute. reflexivity.
Qed.

(** Past the two lookups and conversions, what is left of
    [run_detection]. *)
Lemma run_detection_converted (args : list V) (hv wv : V) (h w : Z) :
  args !! 3%nat = Some hv -> args !! 4%nat = Some wv ->
  to_int hv = inr h -> to_int wv = inr w ->
  run_detection args =
    (kwargs ← dict_del "img_height"
       (dict_set "imgsz" (tuple2 h w) (zip RunDetection.keys args));
     kwargs ← dict_del "img_width" kwargs;
     call_run kwargs).
Proof.
  intros H3 H4 Hh Hw.
  do 5 (destruct args as [|? args]; [done|]).
  simpl in H3, H4. injection H3 as ->. injection H4 as ->.
  unfold RunDetection.run_detection.
  change (dict_get "img_height" _) with (@inr exn V hv).
  cbn [mbind exn_bind]. rewrite Hh. cbn [mbind exn_bind].
  change (dict_get "img_width" _) with (@inr exn V wv).
  cbn [mbind exn_bind]. rewrite Hw. done.
Qed.

(** With 28 arguments or more, a value for every key of the list,
    [run_detection] always fails: [run] has no parameter
    [enable_second_stage_classifier], and [run] is never entered. *)
Theorem run_detection_all_keys_type_error (args : list V) (hv wv : V)
    (h w : Z) :
  (28 <= length args)%nat ->
  args !! 3%nat = Some hv -> args !! 4%nat = Some wv ->
  to_int hv = inr h -> to_int wv = inr w ->
  run_detection args = inl (TypeError "enable_second_stage_classifier").
Proof.
  intros Hlen H3 H4 Hh Hw.
  rewrite (run_detection_converted args hv wv h w) by done.
  do 28 (destruct args as [|? args]; [simpl in Hlen; lia|]).
  vm_compute. reflexivity.
Qed.

(** With five to 27 arguments [run_detection] calls [run] with the first
    three arguments and those from the sixth on under their keys, followed
    by [imgsz], the pair of the converted fourth and fifth. *)
Theorem run_detection_calls_run (args : list V) (hv wv : V) (h w : Z) :
  (5 <= length args <= 27)%nat ->
  args !! 3%nat = Some hv -> args !! 4%nat = Some wv ->
  to_int hv = inr h -> to_int wv = inr w ->
  run_detection args =
    inr (run_kw (zip (take 3 RunDetection.keys) (take 3 args)
                 ++ zip (drop 5 RunDetection.keys) (drop 5 args)
                 ++ [("imgsz", tuple2 h w)])).
Proof.
  intros Hlen H3 H4 Hh Hw.
  rewrite (run_detection_converted args hv wv h w) by done.
  do 5 (destruct args as [|? args]; [simpl in Hlen; lia|]).
  do 23 (destruct args as [|? args]; [vm_compute; reflexivity|]).
  simpl in Hlen. lia.
Qed.

(** The attributes of the namespace of [parse_opt] are the parameters of
    [run], name by name, so [main] always enters [run]. *)
Theorem main_enters_run (opt : list V) :
  opt_dests = run_params /\
  RunDetection.main run_kw opt = inr (run_kw (zip opt_dests opt)).
Proof.
  split; [reflexivity|]. unfold RunDetection.main. apply call_run_ok.
  apply Forall_forall. intros [k v] Hkv. simpl.
  apply elem_of_zip_l in Hkv. exact Hkv.
Qed.
End CallFacts.

(** [parse_opt] turns one size into a square and leaves any other number of
    sizes as given; after it the list has two entries exactly when one or
    two were given. *)
Theorem expand_imgsz_spec (imgsz : list Z) :
  (forall x, imgsz = [x] -> expand_imgsz imgsz = [x; x]) /\
  (length imgsz <> 1%nat -> expand_imgsz imgsz = imgsz) /\
  (length (expand_imgsz imgsz) = 2%nat <->
   length imgsz = 1%nat \/ length imgsz = 2%nat) /\
  expand_imgsz (expand_imgsz imgsz) = expand_imgsz imgsz.
Proof.
  assert (H1 : forall x, expand_imgsz [x] = [x; x]) by done.
  assert (H2 : forall l : list Z, length l <> 1%nat -> expand_imgsz l = l).
  { intros l Hl. unfold expand_imgsz, py_list_mul.
    destruct (Nat.eqb_spec (length l) 1); [done|].
    simpl. apply app_nil_r. }
  split; [intros x ->; apply H1|]. split; [apply H2|]. split.
  - destruct imgsz as [|x [|y [|z l]]].
    + rewrite H2 by done. simpl. lia.
    + rewrite H1. simpl. lia.
    + rewrite H2 by done. simpl. lia.
    + rewrite H2 by (simpl; lia). simpl. lia.
  - destruct imgsz as [|x [|y l]].
    + by rewrite !H2.
    + rewrite H1. by rewrite H2.
    + rewrite !H2 by (simpl; lia). done.
Qed.

Lemma run_detection_too_few_args_witness :
  RunDetection.run_detection toy_to_int toy_tuple2 toy_run_kw [1; 2; 3]
    = inl (KeyError "img_height") /\
  RunDetection.run_detection toy_to_int toy_tuple2 toy_run_kw [1; 2; 3; 640]
    = inl (KeyError "img_width").
Proof.
  split.
  - apply (proj1 (run_detection_too_few_args toy_to_int toy_tuple2
                    toy_run_kw [1; 2; 3])). simpl. lia.
  - destruct (proj2 (run_detection_too_few_args toy_to_int toy_tuple2
                       toy_run_kw [1; 2; 3; 640]) eq_refl)
      as (hv & Hhv & Hrun).
    injection Hhv as <-. exact Hrun.
Defined.

Lemma run_detection_all_keys_type_error_witness :
  RunDetection.run_detection toy_to_int toy_tuple2 toy_run_kw
    (Z.of_nat <$> seq 0 28)
    = inl (TypeError "enable_second_stage_classifier").
Proof.
  apply (run_detection_all_keys_type_error toy_to_int toy_tuple2 toy_run_kw
           (Z.of_nat <$> seq 0 28) 3 4 3 4).
  - simpl. lia.
  - reflexivity.
  - reflexivity.
  - reflexivity.
  - reflexivity.
Defined.

Lemma run_detection_calls_run_witness :
  RunDetection.run_detection toy_to_int toy_tuple2 toy_run_kw
    [10; 11; 12; 640; 480; 15; 16]
    = inr [("weights", 10); ("source", 11); ("data", 12);
           ("conf_thres", 15); ("iou_thres", 16); ("imgsz", 64000480)].
Proof.
  apply (run_detection_calls_run toy_to_int toy_tuple2 toy_run_kw
           [10; 11; 12; 640; 480; 15; 16] 640 480 640 480).
  - simpl. lia.
  - reflexivity.
  - reflexivity.
  - reflexivity.
  - reflexivity.
Defined.

Lemma expand_imgsz_spec_witness :
  expand_imgsz [640] = [640; 640] /\ expand_imgsz [640; 480] = [640; 480].
Proof.
  split.
  - apply (proj1 (expand_imgsz_spec [640]) 640). reflexivity.
  - apply (proj1 (proj2 (expand_imgsz_spec [640; 480]))). simpl. lia.
Defined.

(** ** The order of the panels *)

(** The sorted list depends on the boxes only, not on the order in which
    the detector gave them; sorting a sorted list changes nothing. *)
Theorem py_sort_canonical (l1 l2 : list box) :
  l1 ≡ₚ l2 ->
  py_sort l1 = py_sort l2 /\ py_sort (py_sort l1) = py_sort l1.
Proof.
  intros Hp. split.
  - apply (Sorted_unique box_le); auto using py_sort_sorted.
    by rewrite !py_sort_perm.
  - apply (Sorted_unique box_le); auto using py_sort_sorted.
    by rewrite !py_sort_perm.
Qed.

Lemma py_sort_canonical_witness :
  py_sort [Box 5 0 9 9; Box 0 0 4 4] = py_sort [Box 0 0 4 4; Box 5 0 9 9].
Proof.
  apply (py_sort_canonical [Box 5 0 9 9; Box 0 0 4 4]
           [Box 0 0 4 4; Box 5 0 9 9]).
  apply perm_swap.
Defined.

(** ** The anomaly image, fault by fault *)

Lemma fault_draws_filled_count (p q : box) (faults : list (box * Q)) :
  length (filter (fun op => op = panel_filled p) (faults ≫= fault_draws q))
    = if decide (q = p) then length (faults_in q faults) else 0%nat.
Proof.
  induction faults as [|[f prob] rest IH].
  - by case_decide.
  - unfold faults_in in *. rewrite bind_cons, filter_app, length_app, IH.
    rewrite (filter_cons _ (f, prob)). unfold fault_draws at 1. simpl.
    destruct (contained f q) eqn:Hc.
    + rewrite (decide_True (P:=true = true)) by done.
      rewrite !filter_cons, filter_nil.
      rewrite (decide_False (P:=fault_outline f = panel_filled p)) by done.
      rewrite (decide_False (P:=fault_text f prob = panel_filled p)) by done.
      destruct (decide (q = p)) as [->|Hne].
      * rewrite decide_True by done. done.
      * rewrite decide_False; [done|].
        intros H. by apply (inj panel_filled) in H.
    + rewrite (decide_False (P:=false = true)) by done. by case_decide.
Qed.

(** When the operator does not press [s], the calls on the anomaly image
    are, for each panel in sorted order and each fault inside it in list
    order, the filled panel, then the fault's outline, then its label: the
    call that fills a panel is issued once for every fault inside it, not
    once for the panel. *)
Theorem anomaly_fill_per_fault {T} (fulls singles faults : list box)
    (probs : list Q) (w : world T) (d : ref) (w' : world T) :
  correlate fulls singles faults probs w = (d, w') ->
  no_s (keys w) ->
  pixels d w' =
    fulls ≫= (fun p =>
      faults_in p (zip faults probs) ≫= (fun fp =>
        [panel_filled p; fault_outline fp.1; fault_text fp.1 fp.2])) /\
  forall p,
    length (filter (fun op => op = panel_filled p) (pixels d w'))
      = (length (filter (fun q => q = p) fulls)
         * length (faults_in p (zip faults probs)))%nat.
Proof.
  intros Hrun Hks.
  destruct (anomaly_visited _ _ _ _ _ _ _ Hrun) as (k & Hk & Hall).
  rewrite Hk, (Hall Hks). unfold anomaly_draws. split.
  - apply list_bind_ext; [|done]. intros p.
    generalize (zip faults probs). intros l.
    induction l as [|[f prob] l IH]; [done|].
    unfold faults_in in *. rewrite filter_cons, bind_cons.
    unfold fault_draws at 1. simpl.
    destruct (contained f p) eqn:Hc.
    + rewrite decide_True by done. rewrite bind_cons. by rewrite IH.
    + rewrite decide_False by congruence. exact IH.
  - intros p. clear Hrun Hk Hall. induction fulls as [|q rest IH]; [done|].
    rewrite bind_cons, filter_app, length_app.
    rewrite fault_draws_filled_count.
    rewrite filter_cons.
    destruct (decide (q = p)) as [->|Hne]; simpl.
    + rewrite IH. lia.
    + rewrite IH. lia.
Qed.

Lemma anomaly_fill_per_fault_witness :
  let r := correlate [Box 0 0 100 100] []
             [Box 10 10 20 20; Box 40 40 60 60] [1 # 2; 1 # 4]
             (world0 (T:=unit) []) in
  length (filter (fun op => op = panel_filled (Box 0 0 100 100))
            (pixels r.1 r.2)) = 2%nat.
Proof.
  intros r.
  assert (Hrun : correlate [Box 0 0 100 100] []
                   [Box 10 10 20 20; Box 40 40 60 60] [1 # 2; 1 # 4]
                   (world0 (T:=unit) []) = (r.1, r.2))
    by (vm_compute; reflexivity).
  assert (Hks : no_s (keys (world0 (T:=unit) []))) by constructor.
  rewrite (proj2 (anomaly_fill_per_fault _ _ _ _ _ _ _ Hrun Hks)
             (Box 0 0 100 100)).
  vm_compute. reflexivity.
Defined.

(** ** The files of a frame *)

Lemma file_lines_append (name : string) (l : label_line)
    (dk : gmap string file) :
  file_lines name (append_line name l dk) = file_lines name dk ++ [l].
Proof.
  unfold file_lines, append_line. by rewrite lookup_insert_eq.
Qed.

Lemma lookup_append_ne (name name' : string) (l : label_line)
    (dk : gmap string file) :
  name <> name' -> append_line name l dk !! name' = dk !! name'.
Proof. intros Hne. unfold append_line. by rewrite lookup_insert_ne. Qed.

Section FileFacts.
Context {tensor raw : Type} `{!Externals tensor raw}.
Implicit Types (a : args) (fr : frame tensor) (w : world tensor).

Lemma row_disk_txt a fr (dk : gmap string file) (r : row) :
  save_txt a = true -> save_crop a = false ->
  row_disk a fr dk r = append_line (txt_name fr) (label_of a fr r) dk.
Proof.
  intros Ht Hc. unfold row_disk. rewrite Ht, Hc, andb_false_r. done.
Qed.

Lemma rows_disk_quiet a fr (rows : list row) (dk : gmap string file) :
  save_txt a = false -> save_crop a = false -> rows_disk a fr rows dk = dk.
Proof.
  intros Ht Hc. unfold rows_disk. revert dk.
  induction rows as [|r rest IH]; intros dk; [done|].
  simpl. unfold row_disk at 2. rewrite Ht, Hc, andb_false_r. apply IH.
Qed.

Lemma rows_disk_lines a fr (rows : list row) (dk : gmap string file) :
  save_txt a = true -> save_crop a = false ->
  file_lines (txt_name fr) (rows_disk a fr rows dk)
    = file_lines (txt_name fr) dk ++ (label_of a fr <$> rows).
Proof.
  intros Ht Hc. unfold rows_disk. revert dk.
  induction rows as [|r rest IH]; intros dk; simpl.
  - by rewrite app_nil_r.
  - rewrite IH, row_disk_txt, file_lines_append, <- app_assoc by done. done.
Qed.

Lemma rows_disk_other a fr (rows : list row) (dk : gmap string file)
    (name : string) :
  save_crop a = false -> name <> txt_name fr ->
  rows_disk a fr rows dk !! name = dk !! name.
Proof.
  intros Hc Hne. unfold rows_disk. revert dk.
  induction rows as [|r rest IH]; intros dk; simpl; [done|].
  rewrite IH. unfold row_disk. rewrite Hc, andb_false_r.
  destruct (save_txt a); [|done]. by apply lookup_append_ne.
Qed.

Lemma lookup_images_other a fr (dk : gmap string file) (c1 c2 c3 : canvas)
    (name : string) :
  name ∉ image_names fr ->
  <[f_base fr +:+ "_anomaly_detection" +:+ f_ext fr := ImageFile c3]>
    (<[f_base fr +:+ "_panel_block_detection" +:+ f_ext fr := ImageFile c2]>
       (<[f_base fr +:+ "_panel_detection" +:+ f_ext fr := ImageFile c1]> dk))
    !! name = dk !! name.
Proof.
  unfold image_names. rewrite !not_elem_of_cons. intros (H1 & H2 & H3 & _).
  by rewrite !lookup_insert_ne.
Qed.

(** With [nosave] and without [save_txt], [save_crop] and [visualize], a
    frame leaves the files as they were. *)
Theorem frame_writes_nothing a fr w :
  visualize a = false ->
  nosave a = true -> save_txt a = false -> save_crop a = false ->
  disk (run_frame a fr w).2 = disk w.
Proof.
  intros _ Hn Ht Hc. rewrite run_frame_spec. unfold frame_closed.
  cbn [snd disk]. unfold save_img. rewrite Hn. simpl.
  by rewrite !rows_disk_quiet.
Qed.

(** Without [save_crop] and [visualize] a frame touches no file other than
    its label file and its three images; it leaves the label file alone
    without [save_txt], and the images with [nosave]. *)
Theorem frame_touches_only_its_files a fr w (name : string) :
  visualize a = false ->
  save_crop a = false ->
  save_txt a = false \/ name <> txt_name fr ->
  nosave a = true \/ name ∉ image_names fr ->
  disk (run_frame a fr w).2 !! name = disk w !! name.
Proof.
  intros _ Hc Ht Hn. rewrite run_frame_spec. unfold frame_closed.
  cbn [snd disk].
  assert (Hrows : forall rows1 rows2 rows3,
            rows_disk a fr rows3 (rows_disk a fr rows2
              (rows_disk a fr rows1 (disk w))) !! name = disk w !! name).
  { intros rows1 rows2 rows3. destruct Ht as [Ht|Ht].
    - by rewrite !rows_disk_quiet.
    - by rewrite !rows_disk_other. }
  unfold save_img. destruct (nosave a) eqn:Hs; simpl; [apply Hrows|].
  destruct Hn as [Hn|Hn]; [done|].
  rewrite lookup_images_other by done. apply Hrows.
Qed.

(** With [save_txt] (and without [save_crop]) the label file of the frame
    receives, after what it held, one line per row of the three detectors:
    the panel rows, then the fault rows, then the module rows, each in
    reverse row order. *)
Theorem label_file_collects_three_passes a fr w :
  save_txt a = true -> save_crop a = false ->
  nosave a = true \/ txt_name fr ∉ image_names fr ->
  file_lines (txt_name fr) (disk (run_frame a fr w).2)
    = file_lines (txt_name fr) (disk w) ++ frame_labels a fr.
Proof.
  intros Ht Hc Hn. rewrite run_frame_spec. unfold frame_closed.
  cbn [snd disk].
  assert (Hrows :
    file_lines (txt_name fr)
      (rows_disk a fr (reverse (dets_single a fr))
         (rows_disk a fr (reverse (dets_fault a fr))
            (rows_disk a fr (reverse (dets_panel a fr)) (disk w))))
    = file_lines (txt_name fr) (disk w) ++ frame_labels a fr).
  { rewrite !rows_disk_lines by done. unfold frame_labels.
    by rewrite <- !app_assoc. }
  unfold save_img. destruct (nosave a) eqn:Hs; simpl; [exact Hrows|].
  destruct Hn as [Hn|Hn]; [done|].
  rewrite <- Hrows. unfold file_lines at 1.
  by rewrite lookup_images_other.
Qed.

(** Every label on the anomaly image shows the score of one row of the
    fault detector and sits at the corner of that row's box, whose outline
    is on the image as well: boxes and scores stay paired. *)
Theorem labels_belong_to_their_boxes a fr w (text : string) (org : point)
    (fs : Z) (c : colour) (th : Z) :
  let r := run_frame a fr w in
  PutText text org fs c th ∈ pixels (img_detection r.1) r.2 ->
  exists x, x ∈ dets_fault a fr /\
    text = percent_label (r_conf x) /\
    org = (bx1 (row_box fr x) - 30, by1 (row_box fr x) - 1) /\
    fault_outline (row_box fr x) ∈ pixels (img_detection r.1) r.2.
Proof.
  intros r. subst r. rewrite run_frame_spec.
  destruct (frame_closed_pixels
              [PanelModel; FaultModel; SingleModel; SingleModel] a fr w)
    as (_ & _ & Hd).
  set (r := frame_closed _ a fr w) in *. rewrite Hd.
  unfold frame_anomaly. intros Hin.
  apply elem_of_anomaly_draws in Hin as (p & f & prob & Hp & Hf & Hc & Hop).
  destruct Hop as [Hop|[Hop|Hop]]; try done.
  unfold fault_text in Hop. injection Hop as -> -> _ _ _.
  unfold frame_faults in Hf.
  apply list_elem_of_lookup in Hf as [i Hi].
  apply lookup_zip_with_Some in Hi as (b & q & Heq & Hb & Hq).
  injection Heq as -> ->.
  apply list_lookup_fmap_Some in Hb as (x & -> & Hx).
  apply list_lookup_fmap_Some in Hq as (x' & -> & Hx').
  assert (x' = x) as -> by congruence.
  exists x. split.
  { apply list_elem_of_lookup_2 in Hx. by rewrite elem_of_reverse in Hx. }
  split; [done|]. split; [done|].
  apply elem_of_anomaly_draws. exists p, (row_box fr x), (r_conf x).
  split; [done|]. split; [|by auto].
  unfold frame_faults. apply list_elem_of_lookup. exists i.
  apply lookup_zip_with_Some. exists (row_box fr x), (r_conf x).
  split; [done|]. rewrite !list_lookup_fmap, Hx. done.
Qed.
End FileFacts.

(** ** The label, read back *)

Lemma forallb_range (P : Z -> bool) (n : nat) :
  forallb P (Z.of_nat <$> seq 0 n) = true ->
  forall z, 0 <= z < Z.of_nat n -> P z = true.
Proof.
  intros H z Hz. rewrite forallb_forall in H. apply H.
  apply list_elem_of_In, list_elem_of_fmap. exists (Z.to_nat z).
  split; [lia|]. apply elem_of_seq. lia.
Qed.

(** Every number of hundredths from 0 to 10000 is read back from what the
    program prints for it. *)
Lemma parse_str_div100 (n : Z) :
  0 <= n <= 10000 -> parse_div100 (str_div100 n) = Some n.
Proof.
  intros Hn.
  assert (forallb
            (fun z => bool_decide (parse_div100 (str_div100 z) = Some z))
            (Z.of_nat <$> seq 0 (Z.to_nat 10001)) = true) as Hall
    by (vm_compute; reflexivity).
  pose proof (forallb_range _ _ Hall n ltac:(lia)) as H. simpl in H.
  by apply bool_decide_eq_true_1 in H.
Qed.

Lemma string_length_app (s u : string) :
  String.length (s +:+ u) = (String.length s + String.length u)%nat.
Proof. induction s as [|c s IH]; simpl; [done|]. by rewrite IH. Qed.

Lemma string_app_inv_r (s t u : string) : s +:+ u = t +:+ u -> s = t.
Proof.
  intros H.
  assert (Hl : String.length s = String.length t).
  { apply (f_equal String.length) in H.
    rewrite !string_length_app in H. lia. }
  revert t H Hl. induction s as [|c s IH]; intros [|c' t] H Hl;
    simpl in *; try done.
  injection H as -> H. f_equal. apply IH; [done|lia].
Qed.

Lemma py_int_score_range (s : Q) :
  (0 <= s <= 1)%Q -> 0 <= py_int (s * 10000) <= 10000.
Proof.
  intros [H0 H1].
  assert (0 <= s * 10000)%Q as Hs.
  { apply Qmult_le_0_compat; [done|]. by unfold Qle. }
  rewrite (py_int_floor _ Hs). split.
  - change 0 with (Qfloor 0). by apply Qfloor_resp_le.
  - change 10000 with (Qfloor (1 * 10000)). apply Qfloor_resp_le.
    apply Qmult_le_compat_r; [done|]. by unfold Qle.
Qed.

(** For scores between 0 and 1 the number shown is between 0.0 and 100.0,
    and two scores get the same label exactly when they agree in their
    truncated ten-thousandths: the label loses nothing else. *)
Theorem percent_label_faithful (s t : Q) :
  (0 <= s <= 1)%Q -> (0 <= t <= 1)%Q ->
  0 <= py_int (s * 10000) <= 10000 /\
  (percent_label s = percent_label t <->
   py_int (s * 10000) = py_int (t * 10000)).
Proof.
  intros Hs Ht.
  pose proof (py_int_score_range s Hs) as Hn.
  pose proof (py_int_score_range t Ht) as Hm.
  split; [done|]. unfold percent_label. split.
  - intros H. apply string_app_inv_r in H.
    apply (f_equal parse_div100) in H.
    rewrite !parse_str_div100 in H by done. by injection H.
  - by intros ->.
Qed.

Lemma percent_label_faithful_witness :
  percent_label (3 # 64) = percent_label (4687 # 100000) /\
  percent_label (3 # 64) <> percent_label (1 # 2).
Proof.
  assert (forall p q : positive, (p <= q)%positive ->
            (0 <= Z.pos p # q <= 1)%Q) as Hr
    by (intros p q Hpq; split; unfold Qle; simpl; lia).
  split.
  - apply (percent_label_faithful (3 # 64) (4687 # 100000));
      [apply Hr; lia|apply Hr; lia|reflexivity].
  - intros H.
    apply (percent_label_faithful (3 # 64) (1 # 2)) in H;
      [discriminate H|apply Hr; lia|apply Hr; lia].
Defined.

(** ** The file properties on the small instance *)

Lemma frame_writes_nothing_witness :
  let a := Args (1 # 4) (45 # 100) 1000 false false false false true None
             false false false in
  let fr := toy_frame [toy_row 0 0 100 100 (9 # 10)]
              [toy_row 10 40 30 60 (3 # 4)]
              [toy_row 10 40 30 60 (9 # 10)] in
  disk (run_frame a fr (world0 [])).2 = ∅.
Proof.
  intros a fr.
  apply (frame_writes_nothing a fr (world0 [])); reflexivity.
Defined.

Lemma frame_touches_only_its_files_witness :
  let fr := toy_frame [toy_row 0 0 100 100 (9 # 10)]
              [toy_row 10 40 30 60 (3 # 4)]
              [toy_row 10 40 30 60 (9 # 10)] in
  disk (run_frame (toy_args false) fr (world0 [])).2 !! "labels/a.txt"
    = None.
Proof.
  intros fr.
  apply (frame_touches_only_its_files (toy_args false) fr (world0 [])
           "labels/a.txt").
  - reflexivity.
  - reflexivity.
  - left. reflexivity.
  - right. by_compute.
Defined.

Lemma label_file_collects_three_passes_witness :
  let a := Args (1 # 4) (45 # 100) 1000 false true true false false None
             false false false in
  let fr := toy_frame [toy_row 0 0 100 100 (9 # 10)]
              [toy_row 10 40 30 60 (3 # 4)]
              [toy_row 10 40 30 60 (8 # 10)] in
  file_lines "labels/a.txt" (disk (run_frame a fr (world0 [])).2)
    = [LabelLine 0 (0, 0, 0, 0)%Q (Some (9 # 10));
       LabelLine 0 (0, 0, 0, 0)%Q (Some (3 # 4));
       LabelLine 0 (0, 0, 0, 0)%Q (Some (8 # 10))].
Proof.
  intros a fr.
  etransitivity;
    [apply (label_file_collects_three_passes a fr (world0 []))|].
  - reflexivity.
  - reflexivity.
  - right. by_compute.
  - vm_compute. reflexivity.
Defined.

Lemma labels_belong_to_their_boxes_witness :
  let fr := toy_frame [toy_row 0 0 100 100 (9 # 10)]
              [toy_row 10 40 30 60 (3 # 4)]
              [toy_row 10 40 30 60 (8 # 10)] in
  exists x, x ∈ dets_fault (toy_args false) fr /\
    "75.0%" = percent_label (r_conf x) /\
    (-20, 39) = (bx1 (row_box fr x) - 30, by1 (row_box fr x) - 1).
Proof.
  intros fr.
  destruct (labels_belong_to_their_boxes (toy_args false) fr (world0 [])
              "75.0%" (-20, 39) 1 (255, 0, 0) 2) as (x & Hx & Ht & Ho & _).
  - by_compute.
  - by exists x.
Defined.
